(** * Calva notebook provider: splitter, joiner and execution pipeline

    A shallow embedding of [src/NotebookProvider.ts].

    - JavaScript strings are sequences of UTF-16 code units: [jsstring] is
      [list N].  The string methods the source calls ([substring],
      [startsWith], [indexOf], [trimEnd], [replace] with a global literal
      pattern, [repeat], [join]) are written out below with the behaviour
      ECMAScript gives them, including clamping and the [-1] of [indexOf].
    - JavaScript numbers that hold offsets and counts are [Z].
    - A [throw] is an explicit [Throw] result.
    - The boundary locator ([rangesForTopLevelForms]), the remote evaluator
      ([evaluateCode]) and the pretty printer ([prettyPrint]) are not part of
      this file of the repository; they are Section variables, and so is
      the wall clock ([Date.now]).
    - An [async] function is a pass over the state of the world that ends
      resolved or rejected. *)

From Stdlib Require Import ZArith NArith Ascii String DecimalString.
From stdpp Require Import base list.

Local Open Scope Z_scope.

(** ** JavaScript strings *)

Module JsString.

Definition jsstring := list N.

Definition LF : N := 10.
Definition SPACE : N := 32.
Definition DQUOTE : N := 34.
Definition BACKSLASH : N := 92.

(** Literals: a Rocq string is read as ASCII text in which the two
    characters backslash-n stand for a line feed. *)
Fixpoint js (s : string) : jsstring :=
  match s with
  | EmptyString => []
  | String "\" (String "n" rest) => LF :: js rest
  | String a rest => N_of_ascii a :: js rest
  end.

Definition jslength (s : jsstring) : Z := Z.of_nat (length s).

Definition clamp (len i : Z) : Z := Z.max 0 (Z.min i len).

(** [s.substring(a, b)]: both indices are clamped to [0, length] and
    swapped when [a > b]. *)
Definition substring (s : jsstring) (a b : Z) : jsstring :=
  let a' := clamp (jslength s) a in
  let b' := clamp (jslength s) b in
  let lo := Z.min a' b' in
  let hi := Z.max a' b' in
  take (Z.to_nat (hi - lo)) (drop (Z.to_nat lo) s).

(** [s.substring(a)]: the end defaults to the length. *)
Definition substring_from (s : jsstring) (a : Z) : jsstring :=
  substring s a (jslength s).

(** [s.startsWith(pat)] *)
Fixpoint startsWith (s pat : jsstring) {struct pat} : bool :=
  match pat, s with
  | [], _ => true
  | _ :: _, [] => false
  | p :: pat', c :: s' => (p =? c)%N && startsWith s' pat'
  end.

(** [s.indexOf(pat)]: the first offset at which [pat] occurs, [-1] when
    there is none. *)
Fixpoint indexOf (s pat : jsstring) : Z :=
  if startsWith s pat then 0
  else match s with
       | [] => -1
       | _ :: s' => let r := indexOf s' pat in if r <? 0 then -1 else r + 1
       end.

(** WhiteSpace and LineTerminator code points of ECMAScript, the ones
    [trim], [trimStart] and [trimEnd] remove. *)
Definition isWhiteSpace (c : N) : bool :=
  ((c =? 9) || (c =? 10) || (c =? 11) || (c =? 12) || (c =? 13) || (c =? 32)
   || (c =? 160) || (c =? 5760) || ((8192 <=? c) && (c <=? 8202))
   || (c =? 8232) || (c =? 8233) || (c =? 8239) || (c =? 8287)
   || (c =? 12288) || (c =? 65279))%N.

(** [s.trimEnd()]: the longest prefix that does not end in white space. *)
Fixpoint trimEnd (s : jsstring) : jsstring :=
  match s with
  | [] => []
  | c :: s' =>
      match trimEnd s' with
      | [] => if isWhiteSpace c then [] else [c]
      | t => c :: t
      end
  end.

(** The code units [trimEnd] removes. *)
Definition trailingWhiteSpace (s : jsstring) : jsstring :=
  drop (length (trimEnd s)) s.

(** [s.replace(/pat/g, rep)] for a literal, non-empty pattern: matches are
    found left to right and do not overlap.  [skip] counts the code units
    of the current match that are still to be consumed. *)
Fixpoint replaceAll_from (pat rep : jsstring) (skip : nat) (s : jsstring)
  : jsstring :=
  match s with
  | [] => []
  | c :: s' =>
      match skip with
      | S k => replaceAll_from pat rep k s'
      | O =>
          if startsWith s pat
          then rep ++ replaceAll_from pat rep (Nat.pred (length pat)) s'
          else c :: replaceAll_from pat rep O s'
      end
  end.

Definition replaceAll (s pat rep : jsstring) : jsstring :=
  replaceAll_from pat rep O s.

(** [s.replace(/^"|"$/g, '')]: a double quote at offset 0 is removed, and
    so is a double quote at the last offset, when the two are not the same
    code unit. *)
Definition dropTrailingQuote (s : jsstring) : jsstring :=
  match last s with
  | Some c => if (c =? DQUOTE)%N then take (Nat.pred (length s)) s else s
  | None => s
  end.

Definition stripQuotes (s : jsstring) : jsstring :=
  match s with
  | c :: rest => if (c =? DQUOTE)%N then dropTrailingQuote rest else dropTrailingQuote s
  | [] => []
  end.

End JsString.
Import JsString.

(** ** The cell model of the host ([vscode.NotebookCellData]) *)

Inductive NotebookCellKind := Markup | Code.

(** The [metadata] object the splitter attaches to a comment-derived cell. *)
Record CellMetadata := {
  asMarkdown : bool;
  startingWhitespace : Z;
  endingWhitespace : Z;
}.

(** [metadata] is an optional property: [None] is a cell object without it. *)
Record NotebookCellData := {
  value : jsstring;
  kind : NotebookCellKind;
  languageId : jsstring;
  metadata : option CellMetadata;
}.

(** ** Thrown values and results *)

Inductive JsException :=
| TypeError    (* property read on [undefined] *)
| RangeError.  (* [String.prototype.repeat] with a negative count,
                  a string longer than the engine allows *)

(** A call either returns or throws a value of type [E]. *)
Inductive Completion (E A : Type) :=
| Ok (a : A)
| Throw (e : E).
Arguments Ok {E A} a.
Arguments Throw {E A} e.

Definition bindR {E A B} (r : Completion E A) (k : A -> Completion E B)
  : Completion E B :=
  match r with
  | Ok a => k a
  | Throw e => Throw e
  end.

#[global] Instance Completion_ret {E} : MRet (Completion E) := fun A a => Ok a.
#[global] Instance Completion_bind {E} : MBind (Completion E) :=
  fun A B k r => bindR r k.

Definition isOk {E A} (r : Completion E A) : bool :=
  match r with Ok _ => true | Throw _ => false end.

Abbreviation JsResult := (Completion JsException).

(** [cells.map(f)] for a callback that may throw: the first exception
    leaves the loop. *)
Fixpoint mapR {E A B} (f : A -> Completion E B) (l : list A)
  : Completion E (list B) :=
  match l with
  | [] => Ok []
  | a :: l' => b ← f a; bs ← mapR f l'; Ok (b :: bs)
  end.

(** ['\n'.repeat(n)], the limit of the engine on the length of a string
    left aside; [repeatLFWithin] below has it. *)
Definition repeatLF (n : Z) : JsResult jsstring :=
  if n <? 0 then Throw RangeError else Ok (replicate (Z.to_nat n) LF).

(** ** Document splitter: [parseClojure] *)

Section Splitter.

(** [cursor.rangesForTopLevelForms()]: the [start, end] pairs of the
    top-level forms. *)
Variable rangesForTopLevelForms : jsstring -> list (Z * Z).

(** [Array.prototype.flat] on the array of pairs. *)
Definition flat (spans : list (Z * Z)) : list Z :=
  flat_map (fun p => [fst p; snd p]) spans.

(** [_.dropRight(l, 1)] *)
Definition dropRight1 {A} (l : list A) : list A := take (Nat.pred (length l)) l.

(** The callback of [allRanges.map]. *)
Definition cellOfRange (content : jsstring) (range : Z * Z) (index : nat)
  : NotebookCellData :=
  let '(start, end_) := range in
  let isWhitespace := Nat.eqb (index mod 2) 0 in
  let rangeContent := substring content start end_ in
  if isWhitespace then
    if start =? end_ then
      {| value := []; kind := Markup; languageId := js "markdown";
         metadata := None |}
    else if startsWith rangeContent (js "\n\n;; ") then
      let startingWhitespace := indexOf rangeContent (js "\n;; ") in
      let endingWhitespace :=
        jslength rangeContent - jslength (trimEnd rangeContent) in
      {| value :=
           replaceAll
             (trimEnd (substring_from rangeContent startingWhitespace))
             (js "\n;; ") (js "\n");
         kind := Markup; languageId := js "markdown";
         metadata := Some {| asMarkdown := true;
                             startingWhitespace := startingWhitespace;
                             endingWhitespace := endingWhitespace |} |}
    else
      {| value := rangeContent; kind := Markup; languageId := js "markdown";
         metadata := None |}
  else
    {| value := rangeContent; kind := Code; languageId := js "clojure";
       metadata := None |}.

(** [topLevelRanges] after the [push] of the content length. *)
Definition topLevelRanges (content : jsstring) : list Z :=
  flat (rangesForTopLevelForms content) ++ [jslength content].

(** [_.zip(_.dropRight([0, ...topLevelRanges], 1), topLevelRanges)]: the
    two arrays have the same length. *)
Definition allRanges (content : jsstring) : list (Z * Z) :=
  zip (dropRight1 (0 :: topLevelRanges content)) (topLevelRanges content).

(** The array before [.filter]. *)
Definition mappedRanges (content : jsstring) : list NotebookCellData :=
  imap (fun index range => cellOfRange content range index) (allRanges content).

Definition hasValue (x : NotebookCellData) : bool :=
  negb (Nat.eqb (length (value x)) 0).

Definition parseClojure (content : jsstring) : list NotebookCellData :=
  List.filter hasValue (mappedRanges content).

End Splitter.

(** ** Document joiner: [writeCellsToClojure] *)

(** The callback of [cells.map].  Reading [x.metadata.asMarkdown] on a cell
    without [metadata] throws.  The limit on the length of a string is
    left aside here; [textOfCellWithin] below has it. *)
Definition textOfCell (x : NotebookCellData) : JsResult jsstring :=
  match kind x with
  | Code => Ok (value x)
  | Markup =>
      match metadata x with
      | None => Throw TypeError
      | Some m =>
          if asMarkdown m then
            lead ← repeatLF (startingWhitespace m);
            trail ← repeatLF (endingWhitespace m);
            Ok (lead ++ replaceAll (value x) (js "\n") (js "\n;; ") ++ trail)
          else Ok (value x)
      end
  end.

Definition writeCellsToClojure (cells : list NotebookCellData)
  : JsResult jsstring :=
  parts ← mapR textOfCell cells; Ok (concat parts).

(** The scenario of the specification. *)
Definition scenarioText : jsstring :=
  js "(+ 1 2)\n\n;; hello\n;; world\n\n(+ 3 4)".
Definition scenarioForms (_ : jsstring) : list (Z * Z) := [(0, 7); (28, 35)].


(** ** The joiner under the engine's limit on the length of a string *)

Section StringLimit.

(** The greatest length a string can have. *)
Variable maxStringLength : Z.

(** A string operation whose result would be longer throws. *)
Definition checkLength (s : jsstring) : JsResult jsstring :=
  if maxStringLength <? jslength s then Throw RangeError else Ok s.

(** ['\n'.repeat(n)] *)
Definition repeatLFWithin (n : Z) : JsResult jsstring :=
  if (n <? 0) || (maxStringLength <? n) then Throw RangeError
  else Ok (replicate (Z.to_nat n) LF).

(** The callback of [cells.map], with the limit. *)
Definition textOfCellWithin (x : NotebookCellData) : JsResult jsstring :=
  match kind x with
  | Code => Ok (value x)
  | Markup =>
      match metadata x with
      | None => Throw TypeError
      | Some m =>
          if asMarkdown m then
            lead ← repeatLFWithin (startingWhitespace m);
            body ← checkLength (replaceAll (value x) (js "\n") (js "\n;; "));
            front ← checkLength (lead ++ body);
            trail ← repeatLFWithin (endingWhitespace m);
            checkLength (front ++ trail)
          else Ok (value x)
      end
  end.

(** [writeCellsToClojure] with the limit: [join] throws when the text is
    too long. *)
Definition writeCellsToClojureWithin (cells : list NotebookCellData)
  : JsResult jsstring :=
  parts ← mapR textOfCellWithin cells; checkLength (concat parts).

End StringLimit.

(** ** Values of the run time

    What the evaluator or the pretty printer may throw: primitives
    (Numbers that hold an integer exactly, BigInts, strings), arrays, plain
    objects and instances of [Error].  An object is given by its own
    enumerable string-keyed properties in enumeration order; an [Error] by
    what reading [name] and [message] gives and by its own enumerable
    properties (the [message] and the [stack] its constructor sets are not
    enumerable; what is assigned on the instance afterwards, a [name] for
    one, is).  The name and the message of an [Error] are strings.
    [JsCircular] stands for an object or an array that is reachable from
    itself, at the place where it occurs in itself. *)

(** An integer that a Number holds exactly and prints in plain decimal. *)
Record SafeInteger := {
  intValue : Z;
  intSafe : (Z.abs intValue <=? 9007199254740991) = true;
}.

#[warnings="-register-all"]
Inductive JsValue :=
| JsUndefined
| JsNull
| JsBool (b : bool)
| JsNumber (n : SafeInteger)
| JsBigInt (n : Z)
| JsText (s : jsstring)
| JsArray (items : list JsValue)
| JsObject (props : list (jsstring * JsValue))
| JsErrorObject (name message : jsstring) (props : list (jsstring * JsValue))
| JsCircular.

(** [err instanceof Error] *)
Definition instanceofError (v : JsValue) : bool :=
  match v with JsErrorObject _ _ _ => true | _ => false end.

(** No BigInt and no circular reference anywhere in the value. *)
Fixpoint renderable (v : JsValue) : bool :=
  match v with
  | JsBigInt _ | JsCircular => false
  | JsArray items => forallb renderable items
  | JsObject props | JsErrorObject _ _ props =>
      forallb (fun p => renderable p.2) props
  | _ => true
  end.

Module JSON.

Definition hexDigit (n : N) : N := (if n <? 10 then 48 + n else 87 + n)%N.

(** [\uXXXX] with lower-case hexadecimal digits. *)
Definition unicodeEscape (c : N) : jsstring :=
  [BACKSLASH; 117%N; hexDigit ((c / 4096) mod 16); hexDigit ((c / 256) mod 16);
   hexDigit ((c / 16) mod 16); hexDigit (c mod 16)].

Definition isLeadingSurrogate (c : N) : bool := ((55296 <=? c) && (c <=? 56319))%N.
Definition isTrailingSurrogate (c : N) : bool := ((56320 <=? c) && (c <=? 57343))%N.

(** The characters of QuoteJSONString between the two quotes. *)
Fixpoint quoteBody (s : jsstring) : jsstring :=
  match s with
  | [] => []
  | c :: rest =>
      if (c =? 8)%N then BACKSLASH :: 98%N :: quoteBody rest
      else if (c =? 9)%N then BACKSLASH :: 116%N :: quoteBody rest
      else if (c =? 10)%N then BACKSLASH :: 110%N :: quoteBody rest
      else if (c =? 12)%N then BACKSLASH :: 102%N :: quoteBody rest
      else if (c =? 13)%N then BACKSLASH :: 114%N :: quoteBody rest
      else if (c =? DQUOTE)%N then BACKSLASH :: DQUOTE :: quoteBody rest
      else if (c =? BACKSLASH)%N then BACKSLASH :: BACKSLASH :: quoteBody rest
      else if (c <? 32)%N then unicodeEscape c ++ quoteBody rest
      else if isLeadingSurrogate c then
        match rest with
        | d :: rest' =>
            if isTrailingSurrogate d then c :: d :: quoteBody rest'
            else unicodeEscape c ++ quoteBody rest
        | [] => unicodeEscape c
        end
      else if isTrailingSurrogate c then unicodeEscape c ++ quoteBody rest
      else c :: quoteBody rest
  end.

Definition quote (s : jsstring) : jsstring := DQUOTE :: quoteBody s ++ [DQUOTE].

(** Number::toString on an integer below 2^53 in magnitude. *)
Definition numberToString (n : SafeInteger) : jsstring :=
  js (NilZero.string_of_int (Z.to_int (intValue n))).

(** [parts.join(sep)] *)
Fixpoint join (sep : jsstring) (parts : list jsstring) : jsstring :=
  match parts with
  | [] => []
  | [x] => x
  | x :: rest => x ++ sep ++ join sep rest
  end.

(** The text of an array or an object from the texts of its parts. *)
Definition bracket (opening closing : string) (stepback indent : jsstring)
    (partial : list jsstring) : jsstring :=
  match partial with
  | [] => js opening ++ js closing
  | _ => js opening ++ js "\n" ++ indent ++ join (js ",\n" ++ indent) partial
         ++ js "\n" ++ stepback ++ js closing
  end.

Section Parts.

(** SerializeJSONProperty on the parts of an array or an object. *)
Variable serializeProperty : jsstring -> JsValue -> JsResult (option jsstring).

(** The texts of the elements of an array: [undefined] is written
    [null]. *)
Fixpoint elements (indent : jsstring) (items : list JsValue)
  : JsResult (list jsstring) :=
  match items with
  | [] => Ok []
  | x :: rest =>
      str ← serializeProperty indent x;
      strs ← elements indent rest;
      Ok (default (js "null") str :: strs)
  end.

(** The texts of the properties of an object: an [undefined] property is
    left out. *)
Fixpoint members (indent : jsstring) (props : list (jsstring * JsValue))
  : JsResult (list jsstring) :=
  match props with
  | [] => Ok []
  | p :: rest =>
      str ← serializeProperty indent p.2;
      strs ← members indent rest;
      Ok match str with
         | Some s => (quote p.1 ++ js ": " ++ s) :: strs
         | None => strs
         end
  end.

End Parts.

(** SerializeJSONProperty with a gap of [gap]; [None] is [undefined].  A
    BigInt and a circular reference make it throw a [TypeError].  An
    [Error] is an object like any other here: its own enumerable
    properties are written. *)
Fixpoint serialize (gap indent : jsstring) (v : JsValue) {struct v}
  : JsResult (option jsstring) :=
  match v with
  | JsUndefined => Ok None
  | JsNull => Ok (Some (js "null"))
  | JsBool b => Ok (Some (if b then js "true" else js "false"))
  | JsNumber n => Ok (Some (numberToString n))
  | JsBigInt _ => Throw TypeError
  | JsText s => Ok (Some (quote s))
  | JsArray items =>
      match elements (serialize gap) (indent ++ gap) items with
      | Throw e => Throw e
      | Ok partial => Ok (Some (bracket "[" "]" indent (indent ++ gap) partial))
      end
  | JsObject props | JsErrorObject _ _ props =>
      match members (serialize gap) (indent ++ gap) props with
      | Throw e => Throw e
      | Ok partial => Ok (Some (bracket "{" "}" indent (indent ++ gap) partial))
      end
  | JsCircular => Throw TypeError
  end.

(** [JSON.stringify(v, undefined, 4)] *)
Definition stringify4 (v : JsValue) : JsResult (option jsstring) :=
  serialize (js "    ") [] v.

End JSON.

(** ** Execution pipeline: [executeAll] and [doExecution] *)

(** [vscode.NotebookCell]: its position and the text of its document. *)
Record NotebookCell := {
  cellIndex : nat;
  getText : jsstring;
}.

(** [NotebookCellOutputItem.text(value, mime)] and
    [NotebookCellOutputItem.error({name, message})]; a [message] of [None]
    is [undefined]. *)
Inductive NotebookCellOutputItem :=
| TextItem (mime : jsstring) (text : jsstring)
| ErrorItem (name : jsstring) (message : option jsstring).

(** The host gives [text] the mime type [text/plain] when none is passed. *)
Definition NotebookCellOutputItem_text (text : jsstring) (mime : option jsstring)
  : NotebookCellOutputItem :=
  TextItem (default (js "text/plain") mime) text.

(** [new vscode.NotebookCellOutput(items)] *)
Definition NotebookCellOutput := list NotebookCellOutputItem.

(** The calls made on the host, in the order they are made. *)
Inductive HostCall :=
| CreateNotebookCellExecution (cell : NotebookCell)
| ExecutionStart (cell : NotebookCell) (startTime : Z)
| ReplaceOutput (cell : NotebookCell) (outputs : list NotebookCellOutput)
| ExecutionEnd (cell : NotebookCell) (success : bool) (endTime : Z).

(** The items of the [try] block. *)
Definition successItems (response pretty : jsstring) : NotebookCellOutput :=
  let output :=
    [ NotebookCellOutputItem_text response None;
      NotebookCellOutputItem_text (js "```clojure\n" ++ pretty ++ js "\n```")
        (Some (js "text/markdown"));
      NotebookCellOutputItem_text response (Some (js "x-application/edn")) ] in
  if startsWith (stripQuotes response) (js "<html")
  then output ++ [NotebookCellOutputItem_text (stripQuotes response)
                    (Some (js "text/html"))]
  else output.

(** The item of the [catch] block.  [a || b] is [b] when [a] is falsy: here
    when [err] is no [Error], or its property is the empty string.  The
    name is computed first; [JSON.stringify] is called only when the
    message falls back on it, and what it throws leaves the block. *)
Definition errorItem (err : JsValue) : JsResult NotebookCellOutputItem :=
  let name :=
    match err with
    | JsErrorObject name _ _ =>
        if bool_decide (name = []) then js "error" else name
    | _ => js "error"
    end in
  message ←
    match err with
    | JsErrorObject _ message _ =>
        if bool_decide (message = []) then JSON.stringify4 err
        else Ok (Some message)
    | _ => JSON.stringify4 err
    end;
  Ok (ErrorItem name message).

(** *** Execution records

    The record of one cell is read off the four calls made for it. *)
Record ExecutionRecord := {
  recordCell : NotebookCell;
  startedAt : Z;
  outputs : list NotebookCellOutput;
  succeeded : bool;
  endedAt : Z;
}.

Definition callsOfRecord (r : ExecutionRecord) : list HostCall :=
  [ CreateNotebookCellExecution (recordCell r);
    ExecutionStart (recordCell r) (startedAt r);
    ReplaceOutput (recordCell r) (outputs r);
    ExecutionEnd (recordCell r) (succeeded r) (endedAt r) ].

Section Pipeline.

(** The environment of a run: the evaluator session shared by all cells
    and the wall clock. *)
Variable Session : Type.

(** [Date.now()]: the reading, and the environment after it. *)
Variable dateNow : Session -> Z * Session.

(** [repl.evaluateCode(undefined, code)], awaited: the [result] of the
    response or the value the promise is rejected with, and the environment
    when the function goes on. *)
Variable evaluateCode :
  jsstring -> Session -> Completion JsValue jsstring * Session.

(** [prettyPrint(response).value] *)
Variable prettyPrint : jsstring -> Completion JsValue jsstring.

Record World := {
  session : Session;
  calls : list HostCall;
}.

Definition call (c : HostCall) (w : World) : World :=
  {| session := session w; calls := calls w ++ [c] |}.

Definition setSession (s : Session) (w : World) : World :=
  {| session := s; calls := calls w |}.

(** What the [try] block makes of the answer of the evaluator before it
    reaches [replaceOutput]. *)
Definition render (answer : Completion JsValue jsstring)
  : Completion JsValue NotebookCellOutput :=
  response ← answer;
  pretty ← prettyPrint response;
  Ok (successItems response pretty).

(** The evaluation of [cell] when its execution starts in the environment
    [s]: the clock is read for [start] before the evaluator is called. *)
Definition evaluation (cell : NotebookCell) (s : Session)
  : Completion JsValue jsstring * Session :=
  evaluateCode (getText cell) (dateNow s).2.

(** What the [try] block makes of it. *)
Definition attempt (cell : NotebookCell) (s : Session)
  : Completion JsValue NotebookCellOutput :=
  render (evaluation cell s).1.

(** [doExecution]: the [await]s run one after the other, so the function is
    a pass over the world; it ends resolved ([Ok]) or rejected ([Throw]).
    The calls on the host ([createNotebookCellExecution], [start],
    [replaceOutput], [end]) are taken to return.  What the evaluator or the
    pretty printer throws is caught by the [catch] block; what the [catch]
    block throws rejects the function, before [replaceOutput] and [end]. *)
Definition doExecution (cell : NotebookCell) (w : World)
  : World * JsResult unit :=
  let w := call (CreateNotebookCellExecution cell) w in
  let '(startTime, s) := dateNow (session w) in
  let w := call (ExecutionStart cell startTime) (setSession s w) in
  let '(answer, s) := evaluateCode (getText cell) (session w) in
  let w := setSession s w in
  match render answer with
  | Ok output =>
      let w := call (ReplaceOutput cell [output]) w in
      let '(endTime, s) := dateNow (session w) in
      (call (ExecutionEnd cell true endTime) (setSession s w), Ok tt)
  | Throw err =>
      match errorItem err with
      | Ok item =>
          let w := call (ReplaceOutput cell [[item]]) w in
          let '(endTime, s) := dateNow (session w) in
          (call (ExecutionEnd cell false endTime) (setSession s w), Ok tt)
      | Throw e => (w, Throw e)
      end
  end.

(** [for (const cell of cells) await doExecution(cell, controller)]: a
    rejected [doExecution] ends the loop and rejects [executeAll]. *)
Fixpoint executeAll (cells : list NotebookCell) (w : World)
  : World * JsResult unit :=
  match cells with
  | [] => (w, Ok tt)
  | cell :: rest =>
      match doExecution cell w with
      | (w', Ok _) => executeAll rest w'
      | (w', Throw e) => (w', Throw e)
      end
  end.

(** What is handed to [replaceOutput] and [end] for the result of the
    [try] block, when the [catch] block does not throw. *)
Definition outcome (result : Completion JsValue NotebookCellOutput)
  : JsResult (NotebookCellOutput * bool) :=
  match result with
  | Ok output => Ok (output, true)
  | Throw err => item ← errorItem err; Ok ([item], false)
  end.

(** The record of [cell] when its execution starts in [w], if the
    execution is resolved. *)
Definition recordOf (cell : NotebookCell) (w : World)
  : JsResult ExecutionRecord :=
  reported ← outcome (attempt cell (session w));
  Ok {| recordCell := cell;
        startedAt := (dateNow (session w)).1;
        outputs := [reported.1];
        succeeded := reported.2;
        endedAt := (dateNow (evaluation cell (session w)).2).1 |}.

(** The records of a run, each cell starting where the one before it
    stopped; there are none for a rejected execution and the cells after
    it. *)
Fixpoint executionRecords (cells : list NotebookCell) (w : World)
  : list ExecutionRecord :=
  match cells with
  | [] => []
  | cell :: rest =>
      match recordOf cell w with
      | Ok r => r :: executionRecords rest (doExecution cell w).1
      | Throw _ => []
      end
  end.

(** A clock that does not go backwards: [time] is below every reading
    still to come, and neither a reading nor an evaluation lowers it. *)
Definition monotoneClock (time : Session -> Z) : Prop :=
  (forall s, time s <= (dateNow s).1 /\ (dateNow s).1 <= time (dateNow s).2) /\
  (forall code s, time s <= time (evaluateCode code s).2).

End Pipeline.

Arguments session {Session} w.
Arguments calls {Session} w.
Arguments call {Session} c w.
Arguments setSession {Session} s w.
Arguments evaluation {Session} dateNow evaluateCode cell s.
Arguments attempt {Session} dateNow evaluateCode prettyPrint cell s.
Arguments render prettyPrint answer : assert.
Arguments doExecution {Session} dateNow evaluateCode prettyPrint cell w.
Arguments executeAll {Session} dateNow evaluateCode prettyPrint cells w.
Arguments recordOf {Session} dateNow evaluateCode prettyPrint cell w.
Arguments executionRecords {Session} dateNow evaluateCode prettyPrint cells w.
Arguments monotoneClock {Session} dateNow evaluateCode time.

(** Records that follow one another in time, none starting before [t]. *)
Fixpoint chronological (t : Z) (records : list ExecutionRecord) : Prop :=
  match records with
  | [] => True
  | r :: rest =>
      t <= startedAt r /\ startedAt r <= endedAt r
      /\ chronological (endedAt r) rest
  end.

(** An environment for the examples: a counter of milliseconds.  A
    reading of the clock takes none, an evaluation takes five.  The
    evaluator throws a string for a form that starts with [(throw], an
    [Error] without a message for [(error], a BigInt for [(bigint], and
    answers [3] otherwise. *)
Definition demoDateNow (s : nat) : Z * nat := (Z.of_nat s, s).

Definition demoEvaluate (code : jsstring) (s : nat)
  : Completion JsValue jsstring * nat :=
  (if startsWith code (js "(throw") then Throw (JsText (js "boom"))
   else if startsWith code (js "(error")
        then Throw (JsErrorObject (js "Error") [] [])
   else if startsWith code (js "(bigint") then Throw (JsBigInt 1)
   else Ok (js "3"),
   (s + 5)%nat).

Definition demoPretty (response : jsstring) : Completion JsValue jsstring :=
  Ok response.

(** A pretty printer that fails like the evaluator does on [(throw]. *)
Definition demoPrettyThrows (_ : jsstring) : Completion JsValue jsstring :=
  Throw (JsText (js "boom")).

Definition demoWorld : World nat := {| session := 1000%nat; calls := [] |}.

Definition demoCell (i : nat) (text : string) : NotebookCell :=
  {| cellIndex := i; getText := js text |}.

(** An environment whose clock goes backwards: the readings are taken from
    a list, and the evaluator answers [3] at once. *)
Definition listedDateNow (s : list Z) : Z * list Z :=
  match s with
  | t :: rest => (t, rest)
  | [] => (0, [])
  end.

Definition listedEvaluate (_ : jsstring) (s : list Z)
  : Completion JsValue jsstring * list Z :=
  (Ok (js "3"), s).

(** ** Vocabulary of the statements *)

(** Every line feed of [s] is followed by the marker and a space. *)
Fixpoint linesPrefixed (s : jsstring) : bool :=
  match s with
  | [] => true
  | c :: rest =>
      (if (c =? LF)%N then startsWith rest (js ";; ") else true)
      && linesPrefixed rest
  end.

Definition onlyLF (s : jsstring) : bool := forallb (N.eqb LF) s.

Definition countLF (s : jsstring) : nat := length (List.filter (N.eqb LF) s).

(** The test that makes a separator region comment-derived. *)
Definition isCommentBlock (region : jsstring) : bool :=
  startsWith region (js "\n\n;; ").

(** A comment block the joiner can rebuild: what [trimEnd] removes from
    it are line feeds only, and each of its lines carries the marker. *)
Definition wellFormedCommentBlock (region : jsstring) : bool :=
  isCommentBlock region
  && onlyLF (trailingWhiteSpace region)
  && linesPrefixed (trimEnd (substring_from region 1)).

(** The lines of a text, split at line feeds. *)
Fixpoint lines (s : jsstring) : list jsstring :=
  match s with
  | [] => [[]]
  | c :: rest =>
      if (c =? LF)%N then [] :: lines rest
      else match lines rest with
           | l :: ls => (c :: l) :: ls
           | [] => [[c]]
           end
  end.

(** The precondition of the round-trip law in the words of the
    specification: every line of the region that has content starts with
    the marker. *)
Definition contentLinesPrefixed (region : jsstring) : bool :=
  forallb (fun l => match l with
                    | [] => true
                    | _ => startsWith l (js ";; ")
                    end) (lines region).

(** Offsets that never decrease, starting from [a]. *)
Fixpoint monotoneFrom (a : Z) (offsets : list Z) : bool :=
  match offsets with
  | [] => true
  | b :: rest => (a <=? b) && monotoneFrom b rest
  end.

(** The contract of the boundary locator: the flattened spans are within
    the text and in order. *)
Definition validSpans (content : jsstring) (spans : list (Z * Z)) : bool :=
  monotoneFrom 0 (flat spans ++ [jslength content]).

(** [P] holds of every non-empty separator region; [isSeparator] tells
    whether the first range is one (ranges alternate). *)
Fixpoint separatorsSatisfy (P : jsstring -> bool) (content : jsstring)
    (isSeparator : bool) (ranges : list (Z * Z)) : bool :=
  match ranges with
  | [] => true
  | r :: rest =>
      (if isSeparator
       then (r.1 =? r.2) || P (substring content r.1 r.2)
       else true)
      && separatorsSatisfy P content (negb isSeparator) rest
  end.

(** Consecutive pairs of [a :: offsets]. *)
Fixpoint pairsFrom (a : Z) (offsets : list Z) : list (Z * Z) :=
  match offsets with
  | [] => []
  | b :: rest => (a, b) :: pairsFrom b rest
  end.

(** The cells of alternating ranges, by the parity of the first one. *)
Fixpoint cellsFrom (content : jsstring) (isSeparator : bool)
    (ranges : list (Z * Z)) : list NotebookCellData :=
  match ranges with
  | [] => []
  | r :: rest =>
      cellOfRange content r (if isSeparator then 0 else 1)
      :: cellsFrom content (negb isSeparator) rest
  end.



(** Inputs of the examples. *)
Definition twoForms : jsstring := js "(a)\n(b)".
Definition twoFormsSpans (_ : jsstring) : list (Z * Z) := [(0, 3); (4, 7)].

Definition trailingSpaceText : jsstring := js "\n\n;; hi \n(a)".
Definition trailingSpaceSpans (_ : jsstring) : list (Z * Z) := [(9, 12)].

(** ** Further vocabulary: cells and documents *)

Definition isCode (c : NotebookCellData) : bool :=
  match kind c with Code => true | Markup => false end.

Definition nonEmpty (s : jsstring) : bool := negb (Nat.eqb (length s) 0).

(** The text of a range. *)
Definition regionOf (content : jsstring) (r : Z * Z) : jsstring :=
  substring content r.1 r.2.

(** What every cell of the splitter satisfies. *)
Definition cellInvariant (c : NotebookCellData) : Prop :=
  value c <> [] /\
  match kind c with
  | Code => languageId c = js "clojure" /\ metadata c = None
  | Markup =>
      languageId c = js "markdown" /\
      forall m, metadata c = Some m ->
                asMarkdown m = true /\ 0 <= endingWhitespace m
  end.

(** A Markup cell as the joiner expects it: a cell without [metadata] is
    given an empty [metadata] object, in which [asMarkdown] is not set. *)
Definition withMetadata (c : NotebookCellData) : NotebookCellData :=
  match kind c, metadata c with
  | Markup, None =>
      {| value := value c; kind := Markup; languageId := languageId c;
         metadata := Some {| asMarkdown := false; startingWhitespace := 0;
                             endingWhitespace := 0 |} |}
  | _, _ => c
  end.

(** A separator region that is no comment block, or a well-formed one. *)
Definition plainOrWellFormed (region : jsstring) : bool :=
  negb (isCommentBlock region) || wellFormedCommentBlock region.

(** The comment-derived cell with content [v] and [n] trailing line feeds. *)
Definition commentDerivedCell (v : jsstring) (n : Z) : NotebookCellData :=
  {| value := v; kind := Markup; languageId := js "markdown";
     metadata := Some {| asMarkdown := true; startingWhitespace := 1;
                         endingWhitespace := n |} |}.

(** What every record of a run looks like: one output, which holds either
    the three or four text items of a success or the one error item of a
    failure. *)
Definition recordShape (r : ExecutionRecord) : Prop :=
  exists items, outputs r = [items] /\
    if succeeded r then
      exists response fenced,
        let base := [ TextItem (js "text/plain") response;
                      TextItem (js "text/markdown") fenced;
                      TextItem (js "x-application/edn") response ] in
        items = base \/
        exists html, items = base ++ [TextItem (js "text/html") html]
    else
      exists name message, items = [ErrorItem name message] /\ name <> [].

(** ** The serializer: [deserializeNotebook] and [serializeNotebook]

    [TextEncoder] and [TextDecoder] are those of the run time, in their
    default configuration: UTF-8, malformed input replaced by U+FFFD, a
    byte order mark at the start dropped by the decoder.  A [Uint8Array] is
    a list of bytes.  Shifts and masks are written as divisions and
    remainders by powers of two. *)

Module UTF8.

Definition REPLACEMENT : N := 65533.
Definition BOM : N := 65279.

(** The UTF-8 bytes of a scalar value. *)
Definition encodeScalar (cp : N) : list N :=
  (if cp <? 128 then [cp]
   else if cp <? 2048 then [192 + cp / 64; 128 + cp mod 64]
   else if cp <? 65536 then
     [224 + cp / 4096; 128 + (cp / 64) mod 64; 128 + cp mod 64]
   else
     [240 + cp / 262144; 128 + (cp / 4096) mod 64; 128 + (cp / 64) mod 64;
      128 + cp mod 64])%N.

(** [encoder.encode(s)]: surrogate pairs are joined, a surrogate on its
    own becomes U+FFFD. *)
Fixpoint encode (s : jsstring) : list N :=
  match s with
  | [] => []
  | c :: rest =>
      if JSON.isLeadingSurrogate c then
        match rest with
        | d :: rest' =>
            if JSON.isTrailingSurrogate d
            then encodeScalar (65536 + (c - 55296) * 1024 + (d - 56320))%N
                 ++ encode rest'
            else encodeScalar REPLACEMENT ++ encode rest
        | [] => encodeScalar REPLACEMENT
        end
      else if JSON.isTrailingSurrogate c then encodeScalar REPLACEMENT ++ encode rest
      else encodeScalar c ++ encode rest
  end.

(** The code units of a code point. *)
Definition utf16 (cp : N) : jsstring :=
  (if cp <? 65536 then [cp]
   else [55296 + (cp - 65536) / 1024; 56320 + (cp - 65536) mod 1024])%N.

(** The decoder between two code points, or inside one: the code point so
    far, the bytes needed and seen, and the bounds of the next byte. *)
Inductive DecoderState :=
| Initial
| Pending (codePoint : N) (bytesNeeded bytesSeen : nat) (lower upper : N).

(** A byte met when no bytes are needed. *)
Definition startByte (b : N) : jsstring * DecoderState :=
  (if b <=? 127 then ([b], Initial)
   else if (194 <=? b) && (b <=? 223) then
     ([], Pending (b mod 32) 1 0 128 191)
   else if (224 <=? b) && (b <=? 239) then
     ([], Pending (b mod 16) 2 0 (if b =? 224 then 160 else 128)
                                 (if b =? 237 then 159 else 191))
   else if (240 <=? b) && (b <=? 244) then
     ([], Pending (b mod 8) 3 0 (if b =? 240 then 144 else 128)
                                (if b =? 244 then 143 else 191))
   else ([REPLACEMENT], Initial))%N.

(** The decoder run over the bytes; a byte that cannot continue a code
    point ends it with U+FFFD and is read again as a first byte. *)
Fixpoint decodeFrom (st : DecoderState) (bytes : list N) : jsstring :=
  match bytes with
  | [] =>
      match st with
      | Initial => []
      | Pending _ _ _ _ _ => [REPLACEMENT]
      end
  | b :: rest =>
      match st with
      | Initial =>
          let '(out, st') := startByte b in out ++ decodeFrom st' rest
      | Pending cp needed seen lower upper =>
          if ((lower <=? b) && (b <=? upper))%N then
            let cp' := (cp * 64 + b mod 64)%N in
            if Nat.eqb (S seen) needed
            then utf16 cp' ++ decodeFrom Initial rest
            else decodeFrom (Pending cp' needed (S seen) 128 191) rest
          else
            let '(out, st') := startByte b in
            REPLACEMENT :: out ++ decodeFrom st' rest
      end
  end.

(** [decoder.decode(data)]: a byte order mark that comes first is left
    out. *)
Definition decode (data : list N) : jsstring :=
  match decodeFrom Initial data with
  | c :: rest => if (c =? BOM)%N then rest else c :: rest
  | [] => []
  end.

(** Code units in range, with every surrogate in a pair. *)
Fixpoint wellFormed (s : jsstring) : bool :=
  match s with
  | [] => true
  | c :: rest =>
      if JSON.isLeadingSurrogate c then
        match rest with
        | d :: rest' => JSON.isTrailingSurrogate d && wellFormed rest'
        | [] => false
        end
      else (c <? 65536)%N && negb (JSON.isTrailingSurrogate c) && wellFormed rest
  end.

End UTF8.

(** [vscode.NotebookData] *)
Record NotebookData := { cells : list NotebookCellData }.

Definition deserializeNotebook
    (rangesForTopLevelForms : jsstring -> list (Z * Z)) (data : list N)
  : NotebookData :=
  let content := UTF8.decode data in
  let cellRawData := parseClojure rangesForTopLevelForms content in
  {| cells := cellRawData |}.

Definition serializeNotebook (data : NotebookData) : JsResult (list N) :=
  stringOutput ← writeCellsToClojure (cells data);
  Ok (UTF8.encode stringOutput).

(** * Properties of the string primitives *)

Section StringFacts.

Lemma startsWith_app (s pat : jsstring) :
  startsWith s pat = true <-> exists rest, s = pat ++ rest.
Proof.
  revert s. induction pat as [|p pat IH]; intros s; simpl.
  - split; [intros _; by exists s | done].
  - destruct s as [|c s]; simpl.
    + split; [done | intros [rest Hrest]; discriminate].
    + rewrite andb_true_iff, N.eqb_eq, IH. split.
      * intros [-> [rest ->]]. by exists rest.
      * intros [rest Hrest]. injection Hrest as -> ->. eauto.
Qed.

Lemma startsWith_cons_ne (c p : N) (s pat : jsstring) :
  c <> p -> startsWith (c :: s) (p :: pat) = false.
Proof.
  intros H. cbn [startsWith]. apply andb_false_iff. left.
  apply N.eqb_neq. congruence.
Qed.

Lemma startsWith_prefix (pat rest : jsstring) : startsWith (pat ++ rest) pat = true.
Proof. apply startsWith_app. by exists rest. Qed.

Lemma substring_in_range (s : jsstring) (a b : Z) :
  0 <= a <= b -> b <= jslength s ->
  substring s a b = take (Z.to_nat (b - a)) (drop (Z.to_nat a) s).
Proof.
  intros Hab Hb. unfold substring, clamp.
  replace (Z.min (Z.max 0 (Z.min a (jslength s))) (Z.max 0 (Z.min b (jslength s))))
    with a by lia.
  replace (Z.max (Z.max 0 (Z.min a (jslength s))) (Z.max 0 (Z.min b (jslength s))))
    with b by lia.
  done.
Qed.

Lemma substring_length (s : jsstring) (a b : Z) :
  0 <= a <= b -> b <= jslength s -> jslength (substring s a b) = b - a.
Proof.
  intros Hab Hb. rewrite substring_in_range by done.
  unfold jslength in *. rewrite length_take, length_drop. lia.
Qed.

Lemma substring_empty (s : jsstring) (a : Z) : substring s a a = [].
Proof.
  unfold substring. rewrite Z.min_id, Z.max_id, Z.sub_diag. done.
Qed.

(** Adjacent substrings concatenate. *)
Lemma substring_app (s : jsstring) (a b c : Z) :
  0 <= a <= b -> b <= c -> c <= jslength s ->
  substring s a b ++ substring s b c = substring s a c.
Proof.
  intros Hab Hbc Hc. rewrite !substring_in_range by lia.
  replace (Z.to_nat b) with (Z.to_nat a + Z.to_nat (b - a))%nat by lia.
  rewrite <- drop_drop, take_take_drop. f_equal. lia.
Qed.

Lemma substring_full (s : jsstring) : substring s 0 (jslength s) = s.
Proof.
  rewrite substring_in_range; unfold jslength; [|lia..].
  rewrite Z.sub_0_r, Nat2Z.id. simpl. apply firstn_all.
Qed.

Lemma substring_from_cons (c : N) (s : jsstring) : substring_from (c :: s) 1 = s.
Proof.
  unfold substring_from. rewrite substring_in_range; unfold jslength; simpl length; [|lia..].
  replace (Z.to_nat (Z.of_nat (S (length s)) - 1)) with (length s) by lia.
  simpl. apply firstn_all.
Qed.

(** *** [trimEnd] *)

Lemma trimEnd_cons (c : N) (s : jsstring) :
  trimEnd s <> [] -> trimEnd (c :: s) = c :: trimEnd s.
Proof. simpl. by destruct (trimEnd s). Qed.

Lemma trimEnd_cons_nil (c : N) (s : jsstring) :
  trimEnd s = [] -> trimEnd (c :: s) = if isWhiteSpace c then [] else [c].
Proof. simpl. by intros ->. Qed.

Lemma trimEnd_nil_iff (s : jsstring) :
  trimEnd s = [] <-> forallb isWhiteSpace s = true.
Proof.
  induction s as [|c s IH]; simpl; [done|].
  destruct (trimEnd s) as [|t ts] eqn:Ht.
  - destruct (isWhiteSpace c); simpl; [tauto|]. split; discriminate.
  - split; [discriminate|]. rewrite andb_true_iff. intros [_ H].
    apply IH in H. discriminate.
Qed.

(** [trimEnd] splits a string into what it keeps and a white-space tail. *)
Lemma trimEnd_split (s : jsstring) :
  s = trimEnd s ++ trailingWhiteSpace s /\
  forallb isWhiteSpace (trailingWhiteSpace s) = true.
Proof.
  unfold trailingWhiteSpace. induction s as [|c s [IH1 IH2]]; simpl; [done|].
  destruct (trimEnd s) as [|t ts] eqn:Ht.
  - apply trimEnd_nil_iff in Ht.
    destruct (isWhiteSpace c) eqn:Hc; simpl.
    + by rewrite Hc, Ht.
    + rewrite drop_0. done.
  - simpl in *. split; [by f_equal | done].
Qed.

Lemma trimEnd_last (s : jsstring) (c : N) :
  last (trimEnd s) = Some c -> isWhiteSpace c = false.
Proof.
  revert c. induction s as [|d s IH]; intros c; simpl; [done|].
  destruct (trimEnd s) as [|t ts] eqn:Ht.
  - destruct (isWhiteSpace d) eqn:Hd; simpl; [done|]. by intros [= <-].
  - rewrite last_cons.
    destruct (last (t :: ts)) eqn:Hl; [apply IH | by apply last_None in Hl].
Qed.

(** The two properties above determine [trimEnd]. *)
Lemma trimEnd_unique (t w : jsstring) :
  forallb isWhiteSpace w = true ->
  (forall c, last t = Some c -> isWhiteSpace c = false) ->
  trimEnd (t ++ w) = t.
Proof.
  intros Hw. induction t as [|c t IH]; intros Hlast; simpl.
  - by apply trimEnd_nil_iff.
  - destruct t as [|d t].
    + simpl. apply trimEnd_nil_iff in Hw as ->.
      by rewrite (Hlast c eq_refl).
    + rewrite IH; [done|]. intros e He. apply Hlast. by rewrite last_cons, He.
Qed.

Lemma trimEnd_length (s : jsstring) :
  jslength s - jslength (trimEnd s) = jslength (trailingWhiteSpace s).
Proof.
  destruct (trimEnd_split s) as [Hs _]. unfold jslength.
  rewrite Hs at 1. rewrite length_app. lia.
Qed.

(** *** [replaceAll] *)

Lemma replaceAll_from_skip (pat rep : jsstring) (k : nat) (s : jsstring) :
  replaceAll_from pat rep k s = replaceAll_from pat rep 0 (drop k s).
Proof.
  revert k. induction s as [|c s IH]; intros [|k]; simpl; [done..|apply IH].
Qed.

Lemma replaceAll_nil (pat rep : jsstring) : replaceAll [] pat rep = [].
Proof. done. Qed.

Lemma replaceAll_match (pat rep rest : jsstring) :
  pat <> [] ->
  replaceAll (pat ++ rest) pat rep = rep ++ replaceAll rest pat rep.
Proof.
  intros Hpat. unfold replaceAll.
  destruct pat as [|p pat]; [done|]. simpl app. cbn [replaceAll_from].
  change (p :: pat ++ rest) with ((p :: pat) ++ rest).
  rewrite startsWith_prefix. simpl length. simpl Nat.pred.
  rewrite replaceAll_from_skip, drop_app_length. done.
Qed.

Lemma replaceAll_nomatch (pat rep : jsstring) (c : N) (s : jsstring) :
  startsWith (c :: s) pat = false ->
  replaceAll (c :: s) pat rep = c :: replaceAll s pat rep.
Proof. intros H. unfold replaceAll. cbn [replaceAll_from]. by rewrite H. Qed.

(** [indexOf] returns the first offset at which the pattern occurs. *)
Lemma indexOf_first (s pat : jsstring) (i : nat) :
  indexOf s pat = Z.of_nat i ->
  startsWith (drop i s) pat = true /\
  forall j, (j < i)%nat -> startsWith (drop j s) pat = false.
Proof.
  revert i. induction s as [|c s IH]; intros i; cbn [indexOf].
  - destruct (startsWith [] pat) eqn:H0; [|lia].
    intros Hi. assert (i = 0%nat) as -> by lia. split; [done|lia].
  - destruct (startsWith (c :: s) pat) eqn:H0.
    + intros Hi. assert (i = 0%nat) as -> by lia. split; [done|lia].
    + destruct (Z.ltb_spec (indexOf s pat) 0) as [|Hr]; [lia|].
      destruct i as [|i]; [lia|]. intros Hi.
      destruct (IH i ltac:(lia)) as [Hhere Hbefore].
      split; [done|]. intros [|j] Hj; [done|]. apply Hbefore. lia.
Qed.

Lemma indexOf_after_LF (rest : jsstring) :
  indexOf (js "\n\n;; " ++ rest) (js "\n;; ") = 1.
Proof. done. Qed.

End StringFacts.

(** * The splitter: shape of its result *)

Section SplitterShape.

Variable rangesForTopLevelForms : jsstring -> list (Z * Z).
Variable content : jsstring.

Lemma zip_dropRight1 (a : Z) (l : list Z) :
  zip (dropRight1 (a :: l)) l = pairsFrom a l.
Proof.
  revert a. induction l as [|b l IH]; intros a; [done|].
  simpl pairsFrom. rewrite <- IH. done.
Qed.

Lemma allRanges_pairs :
  allRanges rangesForTopLevelForms content
  = pairsFrom 0 (topLevelRanges rangesForTopLevelForms content).
Proof. apply zip_dropRight1. Qed.

(** The callback looks at the parity of the index only. *)
Lemma cellOfRange_parity (r : Z * Z) (i : nat) :
  cellOfRange content r i
  = cellOfRange content r (if Nat.even i then 0 else 1)%nat.
Proof.
  unfold cellOfRange. destruct r as [a b].
  replace (i mod 2 =? 0)%nat with (Nat.even i); [by destruct (Nat.even i)|].
  rewrite <- Nat.bit0_mod, Nat.bit0_odd, <- Nat.negb_even.
  by destruct (Nat.even i).
Qed.

Lemma imap_cellsFrom (k : nat) (ranges : list (Z * Z)) :
  imap (fun i r => cellOfRange content r (k + i)) ranges
  = cellsFrom content (Nat.even k) ranges.
Proof.
  revert k. induction ranges as [|r ranges IH]; intros k; [done|].
  simpl. f_equal.
  - rewrite Nat.add_0_r. apply cellOfRange_parity.
  - rewrite Nat.negb_even, <- Nat.even_succ.
    rewrite <- (IH (S k)). apply imap_ext. intros i x _. simpl.
    f_equal. lia.
Qed.

Lemma mappedRanges_cells :
  mappedRanges rangesForTopLevelForms content
  = cellsFrom content true (allRanges rangesForTopLevelForms content).
Proof. apply (imap_cellsFrom 0). Qed.

Lemma length_pairsFrom (a : Z) (l : list Z) : length (pairsFrom a l) = length l.
Proof. revert a. induction l; intros; simpl; auto. Qed.

Lemma length_cellsFrom (b : bool) (ranges : list (Z * Z)) :
  length (cellsFrom content b ranges) = length ranges.
Proof. revert b. induction ranges; intros; simpl; auto. Qed.

End SplitterShape.

(** * Comment blocks: decoding and encoding *)

Section CommentBlocks.

Lemma trimEnd_cons_keep (c : N) (s : jsstring) :
  isWhiteSpace c = false -> trimEnd (c :: s) = c :: trimEnd s.
Proof. intros Hc. simpl. rewrite Hc. by destruct (trimEnd s). Qed.

(** What is left of a comment block after its first line feed and its
    trailing white space: it starts with a line feed and the marker. *)
Lemma trimEnd_commentBlock (rest : jsstring) :
  trimEnd (js "\n;; " ++ rest) = js "\n;;" ++ trimEnd (SPACE :: rest).
Proof.
  change (js "\n;; " ++ rest) with (LF :: 59%N :: 59%N :: SPACE :: rest).
  rewrite trimEnd_cons by (by rewrite trimEnd_cons_keep).
  by rewrite 2!trimEnd_cons_keep.
Qed.

Lemma trailingWhiteSpace_cons (c : N) (s : jsstring) :
  trimEnd s <> [] -> trailingWhiteSpace (c :: s) = trailingWhiteSpace s.
Proof. intros H. unfold trailingWhiteSpace. by rewrite trimEnd_cons. Qed.

Lemma onlyLF_replicate (w : jsstring) :
  onlyLF w = true -> replicate (length w) LF = w.
Proof.
  unfold onlyLF. induction w as [|c w IH]; [done|].
  cbn [forallb length replicate].
  rewrite andb_true_iff, N.eqb_eq. intros [<- Hw]. by rewrite IH.
Qed.

Lemma linesPrefixed_drop (k : nat) (s : jsstring) :
  linesPrefixed s = true -> linesPrefixed (drop k s) = true.
Proof.
  revert k. induction s as [|c s IH]; intros [|k]; simpl; try done.
  rewrite andb_true_iff. intros [_ H]. by apply IH.
Qed.

(** Decoding then encoding gives back a block whose lines all carry the
    marker. *)
Lemma encode_decode (b : jsstring) :
  linesPrefixed b = true ->
  replaceAll (replaceAll b (js "\n;; ") (js "\n")) (js "\n") (js "\n;; ") = b.
Proof.
  remember (length b) as n eqn:Hn. revert b Hn.
  induction n as [n IH] using lt_wf_ind. intros b Hn Hb.
  destruct b as [|c b]; [done|].
  cbn [linesPrefixed] in Hb. apply andb_true_iff in Hb as [Hc Hb].
  destruct (N.eqb_spec c LF) as [->|Ec].
  - apply startsWith_app in Hc as [rest ->].
    change (LF :: js ";; " ++ rest) with (js "\n;; " ++ rest).
    rewrite replaceAll_match by done.
    rewrite (replaceAll_match (js "\n")) by done.
    rewrite (IH (length rest)); [done| |done|].
    + subst n. cbn [length]. rewrite length_app. cbn. lia.
    + by apply (linesPrefixed_drop 3) in Hb.
  - rewrite replaceAll_nomatch by (by apply startsWith_cons_ne).
    rewrite replaceAll_nomatch by (by apply startsWith_cons_ne).
    rewrite (IH (length b)); [done| |done|done].
    subst n. cbn [length]. lia.
Qed.

(** The encoder puts the marker after every line feed, so only such
    blocks can come back unchanged. *)
Lemma linesPrefixed_encode (x : jsstring) :
  linesPrefixed (replaceAll x (js "\n") (js "\n;; ")) = true.
Proof.
  induction x as [|c x IH]; [done|].
  destruct (N.eqb_spec c LF) as [->|Ec].
  - change (LF :: x) with (js "\n" ++ x). rewrite replaceAll_match by done.
    change (js "\n;; " ++ ?y) with (LF :: 59%N :: 59%N :: SPACE :: y).
    cbn [linesPrefixed]. rewrite IH. done.
  - rewrite replaceAll_nomatch by (by apply startsWith_cons_ne).
    cbn [linesPrefixed]. rewrite IH. apply N.eqb_neq in Ec. by rewrite Ec.
Qed.

End CommentBlocks.

(** * The cell of one range and its text *)

Section Cells.

Variable content : jsstring.

Lemma codeCell (a b : Z) :
  cellOfRange content (a, b) 1
  = {| value := substring content a b; kind := Code;
       languageId := js "clojure"; metadata := None |}.
Proof. done. Qed.

Lemma emptySeparatorCell (a : Z) :
  cellOfRange content (a, a) 0
  = {| value := []; kind := Markup; languageId := js "markdown";
       metadata := None |}.
Proof. unfold cellOfRange. cbn. by rewrite Z.eqb_refl. Qed.

(** The cell of a comment block: the offset recorded for the marker is
    always 1, and the count recorded for the end is the number of code
    units [trimEnd] removes. *)
Lemma commentCell (a b : Z) :
  a <> b ->
  isCommentBlock (substring content a b) = true ->
  cellOfRange content (a, b) 0
  = {| value :=
         replaceAll (trimEnd (substring_from (substring content a b) 1))
           (js "\n;; ") (js "\n");
       kind := Markup; languageId := js "markdown";
       metadata :=
         Some {| asMarkdown := true; startingWhitespace := 1;
                 endingWhitespace :=
                   jslength (trailingWhiteSpace (substring content a b)) |} |}.
Proof.
  intros Hab Hblock. unfold cellOfRange. cbn [Nat.modulo Nat.eqb].
  change (0 mod 2 =? 0)%nat with true. cbv iota.
  apply Z.eqb_neq in Hab as ->. unfold isCommentBlock in Hblock.
  rewrite Hblock. apply startsWith_app in Hblock as [rest Hrest].
  rewrite Hrest, indexOf_after_LF, trimEnd_length. done.
Qed.

Lemma plainCell (a b : Z) :
  a <> b ->
  isCommentBlock (substring content a b) = false ->
  cellOfRange content (a, b) 0
  = {| value := substring content a b; kind := Markup;
       languageId := js "markdown"; metadata := None |}.
Proof.
  intros Hab Hblock. unfold cellOfRange.
  change (0 mod 2 =? 0)%nat with true. cbv iota.
  apply Z.eqb_neq in Hab as ->. unfold isCommentBlock in Hblock.
  by rewrite Hblock.
Qed.

(** The content of a comment-derived cell starts with a line feed. *)
Lemma commentValue_head (rest : jsstring) :
  exists tail,
    replaceAll (trimEnd (substring_from (js "\n\n;; " ++ rest) 1))
      (js "\n;; ") (js "\n") = LF :: tail.
Proof.
  change (js "\n\n;; " ++ rest) with (LF :: (js "\n;; " ++ rest)).
  rewrite substring_from_cons, trimEnd_commentBlock.
  destruct (trimEnd (SPACE :: rest)) as [|c t] eqn:Ht.
  - by eexists.
  - destruct (N.eqb_spec c SPACE) as [->|Hc].
    + change (js "\n;;" ++ SPACE :: t) with (js "\n;; " ++ t).
      rewrite replaceAll_match by done. by eexists.
    + change (js "\n;;" ++ c :: t) with (LF :: 59%N :: 59%N :: c :: t).
      rewrite replaceAll_nomatch; [by eexists|].
      change (js "\n;; ") with [LF; 59%N; 59%N; SPACE]. cbn [startsWith].
      rewrite (proj2 (N.eqb_neq SPACE c)) by congruence.
      by rewrite !andb_false_r.
Qed.

(** A well-formed comment block is rebuilt by the joiner. *)
Lemma commentCell_text (a b : Z) :
  a <> b ->
  wellFormedCommentBlock (substring content a b) = true ->
  textOfCell (cellOfRange content (a, b) 0) = Ok (substring content a b).
Proof.
  intros Hab Hwf. unfold wellFormedCommentBlock in Hwf.
  apply andb_true_iff in Hwf as [Hwf Hlines].
  apply andb_true_iff in Hwf as [Hblock Hlf].
  rewrite commentCell by done. unfold textOfCell. cbn [kind metadata asMarkdown
    startingWhitespace endingWhitespace value].
  set (R := substring content a b) in *.
  apply startsWith_app in Hblock as [rest Hrest].
  assert (HR : R = LF :: (js "\n;; " ++ rest)) by done.
  assert (Hne : trimEnd (js "\n;; " ++ rest) <> []).
  { rewrite trimEnd_commentBlock. done. }
  clearbody R. subst R. rewrite HR in Hlines, Hlf |- *. clear HR.
  rewrite substring_from_cons in Hlines |- *.
  rewrite encode_decode by done.
  rewrite trailingWhiteSpace_cons in Hlf |- * by done.
  unfold repeatLF, jslength.
  destruct (Z.ltb_spec (Z.of_nat (length (trailingWhiteSpace (js "\n;; " ++ rest)))) 0);
    [lia|].
  cbn [mbind Completion_bind bindR]. rewrite Nat2Z.id, onlyLF_replicate by done.
  change (replicate (Z.to_nat 1) LF) with [LF]. cbn [app].
  by rewrite <- (proj1 (trimEnd_split _)).
Qed.

Lemma onlyLF_of_replicate (n : nat) : onlyLF (replicate n LF) = true.
Proof. unfold onlyLF. induction n as [|n IH]; [done|]. cbn [replicate forallb]. by rewrite IH. Qed.

(** The joiner always writes a comment-derived cell as one line feed, the
    encoded content and as many line feeds as [trimEnd] removed code units. *)
Lemma commentCell_written (a b : Z) :
  a <> b ->
  isCommentBlock (substring content a b) = true ->
  textOfCell (cellOfRange content (a, b) 0)
  = Ok (LF :: replaceAll (value (cellOfRange content (a, b) 0)) (js "\n")
                (js "\n;; ")
           ++ replicate (length (trailingWhiteSpace (substring content a b))) LF).
Proof.
  intros Hab Hblock. rewrite commentCell by done. unfold textOfCell.
  cbn [kind metadata asMarkdown startingWhitespace endingWhitespace value].
  unfold repeatLF, jslength.
  destruct (Z.ltb_spec (Z.of_nat (length (trailingWhiteSpace (substring content a b)))) 0);
    [lia|].
  cbn [mbind Completion_bind bindR]. by rewrite Nat2Z.id.
Qed.

(** The two conditions on a comment block are exactly those under which
    the joiner rebuilds it. *)
Lemma commentCell_text_iff (a b : Z) :
  a <> b ->
  isCommentBlock (substring content a b) = true ->
  textOfCell (cellOfRange content (a, b) 0) = Ok (substring content a b)
  <-> wellFormedCommentBlock (substring content a b) = true.
Proof.
  intros Hab Hblock. split; [|by apply commentCell_text].
  rewrite commentCell_written, commentCell by done. cbn [value].
  unfold wellFormedCommentBlock. rewrite Hblock. cbn [andb].
  apply startsWith_app in Hblock as [rest Hrest]. rewrite Hrest.
  change (js "\n\n;; " ++ rest) with (LF :: (js "\n;; " ++ rest)).
  assert (Hne : trimEnd (js "\n;; " ++ rest) <> []).
  { rewrite trimEnd_commentBlock. done. }
  rewrite substring_from_cons, trailingWhiteSpace_cons by done.
  set (block := js "\n;; " ++ rest) in *. intros Heq.
  assert (Hsplit :
    replaceAll (replaceAll (trimEnd block) (js "\n;; ") (js "\n")) (js "\n")
      (js "\n;; ") ++ replicate (length (trailingWhiteSpace block)) LF
    = trimEnd block ++ trailingWhiteSpace block).
  { rewrite <- (proj1 (trimEnd_split block)). congruence. }
  apply app_inj_2 in Hsplit as [Hb Hw]; [|by rewrite length_replicate].
  rewrite <- Hb at 1. rewrite linesPrefixed_encode, <- Hw.
  by rewrite onlyLF_of_replicate.
Qed.

End Cells.

(** * Joining what the splitter produced *)

Section RoundTrip.

Variable content : jsstring.

Lemma writeCells_cons (c : NotebookCellData) (cs : list NotebookCellData) :
  writeCellsToClojure (c :: cs)
  = (t ← textOfCell c; rest ← writeCellsToClojure cs; Ok (t ++ rest)).
Proof.
  unfold writeCellsToClojure. cbn [mapR mbind Completion_bind bindR].
  destruct (textOfCell c); [|done]. by destruct (mapR textOfCell cs).
Qed.

Lemma hasValue_false (c : NotebookCellData) : hasValue c = false -> value c = [].
Proof. unfold hasValue. by destruct (value c). Qed.

(** A cell that survives the filter is written back as its region; a cell
    that does not had an empty region. *)
Lemma cell_text (a b : Z) (isSeparator : bool) :
  0 <= a <= b -> b <= jslength content ->
  (if isSeparator
   then (a =? b) || wellFormedCommentBlock (substring content a b)
   else true) = true ->
  let c := cellOfRange content (a, b) (if isSeparator then 0 else 1) in
  if hasValue c then textOfCell c = Ok (substring content a b)
  else substring content a b = [].
Proof.
  intros Hab Hb Hsep c. subst c. destruct isSeparator.
  - destruct (Z.eqb_spec a b) as [->|Hne].
    + rewrite emptySeparatorCell. cbn. apply substring_empty.
    + cbn [orb] in Hsep.
      assert (Hblock : isCommentBlock (substring content a b) = true).
      { unfold wellFormedCommentBlock in Hsep.
        by repeat (apply andb_true_iff in Hsep as [Hsep _]). }
      apply startsWith_app in Hblock as Hrest. destruct Hrest as [rest Hrest].
      destruct (commentValue_head rest) as [tail Htail].
      rewrite <- Hrest in Htail.
      replace (hasValue (cellOfRange content (a, b) 0)) with true.
      * by apply commentCell_text.
      * rewrite commentCell by done. unfold hasValue. cbn [value].
        by rewrite Htail.
  - rewrite codeCell. unfold hasValue, textOfCell. cbn [value kind].
    by destruct (substring content a b).
Qed.

Lemma last_cons_default (m : list Z) (a b : Z) :
  List.last (b :: m) a = List.last m b.
Proof.
  revert a b. induction m as [|c m IH]; intros a b; [done|].
  change (List.last (b :: c :: m) a) with (List.last (c :: m) a).
  by rewrite (IH a c), (IH b c).
Qed.

Lemma monotoneFrom_le_last (m : list Z) (a : Z) :
  monotoneFrom a m = true -> a <= List.last m a.
Proof.
  revert a. induction m as [|b m IH]; intros a; [intros _; cbn; lia|].
  cbn [monotoneFrom]. rewrite andb_true_iff, Z.leb_le. intros [Hab Hm].
  apply IH in Hm. rewrite last_cons_default. lia.
Qed.

Lemma join_cellsFrom (m : list Z) (a : Z) (isSeparator : bool) :
  0 <= a ->
  monotoneFrom a m = true ->
  List.last m a <= jslength content ->
  separatorsSatisfy wellFormedCommentBlock content isSeparator
    (pairsFrom a m) = true ->
  writeCellsToClojure
    (List.filter hasValue (cellsFrom content isSeparator (pairsFrom a m)))
  = Ok (substring content a (List.last m a)).
Proof.
  revert a isSeparator.
  induction m as [|b m IH]; intros a isSeparator Ha Hmono Hlast Hsep.
  - cbn. by rewrite substring_empty.
  - cbn [monotoneFrom] in Hmono. apply andb_true_iff in Hmono as [Hab Hmono].
    apply Z.leb_le in Hab.
    cbn [pairsFrom separatorsSatisfy fst snd] in Hsep.
    apply andb_true_iff in Hsep as [Hhere Hsep].
    rewrite last_cons_default in Hlast |- *.
    pose proof (monotoneFrom_le_last _ _ Hmono) as Hb.
    specialize (IH b (negb isSeparator) ltac:(lia) Hmono Hlast Hsep).
    cbn [pairsFrom cellsFrom List.filter].
    pose proof (cell_text a b isSeparator ltac:(lia) ltac:(lia) Hhere) as Hcell.
    cbv zeta in Hcell.
    rewrite <- (substring_app content a b (List.last m b)) by lia.
    destruct (hasValue _).
    + rewrite writeCells_cons, Hcell, IH. done.
    + by rewrite Hcell, IH.
Qed.

End RoundTrip.

(** * The splitter and the joiner: main results *)

Section SplitJoin.

Variable rangesForTopLevelForms : jsstring -> list (Z * Z).
Variable content : jsstring.

Local Abbreviation spans := (rangesForTopLevelForms content).
Local Abbreviation ranges := (allRanges rangesForTopLevelForms content).
Local Abbreviation cells := (mappedRanges rangesForTopLevelForms content).

(** C1, as amended.  When the offsets of the locator are in order and
    within the text, every non-empty separator region starts with two line
    feeds and the marker, loses only line feeds to [trimEnd], and has the
    marker and a space after each of its remaining line feeds, then joining
    the cells of the splitter gives back the text, code unit for code
    unit. *)
Theorem roundtrip_wellFormed :
  validSpans content spans = true ->
  separatorsSatisfy wellFormedCommentBlock content true ranges = true ->
  writeCellsToClojure (parseClojure rangesForTopLevelForms content) = Ok content.
Proof.
  intros Hvalid Hsep. unfold parseClojure.
  rewrite mappedRanges_cells, allRanges_pairs in *.
  unfold validSpans in Hvalid. unfold topLevelRanges in *.
  rewrite join_cellsFrom; try done.
  - by rewrite last_last, substring_full.
  - rewrite last_last. lia.
Qed.

Lemma kind_cellOfRange (r : Z * Z) (i : nat) :
  kind (cellOfRange content r i) = if Nat.even i then Markup else Code.
Proof.
  rewrite cellOfRange_parity. destruct r as [a b], (Nat.even i); [|done].
  unfold cellOfRange. change (0 mod 2 =? 0)%nat with true. cbv iota.
  destruct (a =? b); [done|]. by destruct (startsWith _ _).
Qed.

Lemma value_cellOfRange_odd (r : Z * Z) (i : nat) :
  Nat.even i = false -> value (cellOfRange content r i) = substring content r.1 r.2.
Proof. intros Hi. rewrite cellOfRange_parity, Hi. by destruct r. Qed.

Lemma lookup_pairsFrom_flat (sp : list (Z * Z)) (a z : Z) (k : nat) :
  pairsFrom a (flat sp ++ [z]) !! (2 * k + 1)%nat = sp !! k.
Proof.
  revert a k. induction sp as [|[s e] sp IH]; intros a k.
  - cbn. by destruct k.
  - cbn [flat flat_map app fst snd pairsFrom]. destruct k as [|k]; [done|].
    replace (2 * S k + 1)%nat with (S (S (2 * k + 1))) by lia.
    cbn [lookup list_lookup]. apply IH.
Qed.

Lemma length_flat (sp : list (Z * Z)) : length (flat sp) = (2 * length sp)%nat.
Proof.
  unfold flat. induction sp as [|p sp IH]; [done|].
  cbn [flat_map app length]. lia.
Qed.

Lemma sublist_filter_bool {A} (f : A -> bool) (l : list A) :
  sublist (List.filter f l) l.
Proof.
  induction l as [|x l IH]; cbn [List.filter]; [constructor|].
  destruct (f x); by constructor.
Qed.

(** C4.  Before the filter there is one cell for each consecutive pair of
    offsets; the cell at an even index is a Markup cell and the cell at an
    odd index a Code cell; the range at index [2k+1] is the [k]-th span of
    the locator and the content of its cell is the substring of that span;
    the filter keeps the cells that have content, in their order. *)
Theorem classification_alternation :
  length cells = length ranges /\
  length ranges = (2 * length spans + 1)%nat /\
  (forall i, kind <$> cells !! i
             = (fun _ => if Nat.even i then Markup else Code) <$> ranges !! i) /\
  (forall k, ranges !! (2 * k + 1)%nat = spans !! k) /\
  (forall k, value <$> cells !! (2 * k + 1)%nat
             = (fun span => substring content span.1 span.2) <$> spans !! k) /\
  parseClojure rangesForTopLevelForms content = List.filter hasValue cells /\
  sublist (parseClojure rangesForTopLevelForms content) cells.
Proof.
  assert (Hodd : forall k, ranges !! (2 * k + 1)%nat = spans !! k).
  { intros k. rewrite allRanges_pairs. apply lookup_pairsFrom_flat. }
  repeat split.
  - unfold mappedRanges. apply length_imap.
  - rewrite allRanges_pairs, length_pairsFrom. unfold topLevelRanges.
    rewrite length_app, length_flat. cbn. lia.
  - intros i. unfold mappedRanges. rewrite list_lookup_imap.
    destruct (ranges !! i); [|done]. cbn. by rewrite kind_cellOfRange.
  - done.
  - intros k. unfold mappedRanges. rewrite list_lookup_imap, Hodd.
    destruct (spans !! k); [|done]. cbn. rewrite value_cellOfRange_odd; [done|].
    replace (k + (k + 0) + 1)%nat with (1 + 2 * k)%nat by lia.
    by rewrite Nat.even_add_mul_2.
  - apply sublist_filter_bool.
Qed.

End SplitJoin.

Lemma roundtrip_wellFormed_witness :
  validSpans scenarioText (scenarioForms scenarioText) = true /\
  separatorsSatisfy wellFormedCommentBlock scenarioText true
    (allRanges scenarioForms scenarioText) = true /\
  writeCellsToClojure (parseClojure scenarioForms scenarioText) = Ok scenarioText.
Proof.
  split; [vm_compute; reflexivity|]. split; [vm_compute; reflexivity|].
  apply (roundtrip_wellFormed scenarioForms scenarioText); vm_compute; reflexivity.
Defined.

(** C1 as stated fails.  In the text below the only separator region is
    a comment block whose one content line carries the marker, and the
    span of the form is valid; the line ends in a space, which the
    splitter counts and the joiner writes back as a line feed. *)
Lemma roundtrip_counterexample :
  validSpans trailingSpaceText (trailingSpaceSpans trailingSpaceText) = true /\
  separatorsSatisfy (fun region => isCommentBlock region && contentLinesPrefixed region)
    trailingSpaceText true (allRanges trailingSpaceSpans trailingSpaceText) = true /\
  writeCellsToClojure (parseClojure trailingSpaceSpans trailingSpaceText)
  = Ok (js "\n\n;; hi\n\n(a)") /\
  writeCellsToClojure (parseClojure trailingSpaceSpans trailingSpaceText)
  <> Ok trailingSpaceText.
Proof. repeat split; try (vm_compute; reflexivity). vm_compute. discriminate. Qed.

(** Reading [asMarkdown] on a Markup cell without [metadata] throws. *)
Lemma textOfCell_plain (x : NotebookCellData) :
  kind x = Markup -> metadata x = None -> textOfCell x = Throw TypeError.
Proof. intros Hk Hm. unfold textOfCell. by rewrite Hk, Hm. Qed.

Lemma writeCells_throw (pre post : list NotebookCellData) (x : NotebookCellData)
    (e : JsException) :
  Forall (fun c => isOk (textOfCell c) = true) pre ->
  textOfCell x = Throw e ->
  writeCellsToClojure (pre ++ x :: post) = Throw e.
Proof.
  intros Hpre Hx. induction Hpre as [|c pre Hc _ IH]; cbn [app].
  - by rewrite writeCells_cons, Hx.
  - rewrite writeCells_cons, IH. by destruct (textOfCell c).
Qed.

(** C2 fails on the code.  For two forms separated by a line feed the
    splitter returns a plain Markup cell without [metadata] between the two
    Code cells, and the joiner throws on that very document. *)
Theorem joiner_throws_on_plain_prose :
  parseClojure twoFormsSpans twoForms
  = [ {| value := js "(a)"; kind := Code; languageId := js "clojure";
         metadata := None |};
      {| value := js "\n"; kind := Markup; languageId := js "markdown";
         metadata := None |};
      {| value := js "(b)"; kind := Code; languageId := js "clojure";
         metadata := None |} ] /\
  writeCellsToClojure (parseClojure twoFormsSpans twoForms) = Throw TypeError.
Proof. split; vm_compute; reflexivity. Qed.

(** C3.  The scenario of the specification: the three cells, and the text
    the joiner rebuilds from them. *)
Theorem scenario_split_join :
  parseClojure scenarioForms scenarioText
  = [ {| value := js "(+ 1 2)"; kind := Code; languageId := js "clojure";
         metadata := None |};
      {| value := js "\nhello\nworld"; kind := Markup;
         languageId := js "markdown";
         metadata := Some {| asMarkdown := true; startingWhitespace := 1;
                             endingWhitespace := 2 |} |};
      {| value := js "(+ 3 4)"; kind := Code; languageId := js "clojure";
         metadata := None |} ] /\
  writeCellsToClojure (parseClojure scenarioForms scenarioText) = Ok scenarioText /\
  scenarioText
  = js "(+ 1 2)" ++ [LF; LF] ++ js ";; hello" ++ [LF] ++ js ";; world"
    ++ [LF; LF] ++ js "(+ 3 4)".
Proof. repeat split; vm_compute; reflexivity. Qed.

(** * Where the joiner throws on the cells of the splitter *)

Section JoinerThrows.

Variable rangesForTopLevelForms : jsstring -> list (Z * Z).
Variable content : jsstring.





End JoinerThrows.

(** * The counts recorded for a comment block *)

Section Counts.

Lemma countLF_le (w : jsstring) : (countLF w <= length w)%nat.
Proof.
  unfold countLF. induction w as [|c w IH]; cbn [List.filter length]; [done|].
  destruct (LF =? c)%N; cbn [length]; lia.
Qed.

Lemma countLF_all (w : jsstring) : countLF w = length w <-> onlyLF w = true.
Proof.
  unfold onlyLF. induction w as [|c w IH]; [done|].
  pose proof (countLF_le w) as Hle. unfold countLF in *.
  cbn [List.filter forallb length]. destruct (LF =? c)%N; cbn [length andb].
  - rewrite <- IH. lia.
  - split; [lia|discriminate].
Qed.

Variable rangesForTopLevelForms : jsstring -> list (Z * Z).
Variable content : jsstring.

(** C5, as amended.  For a comment-derived separator region the recorded
    [endingWhitespace] is the number of code units that [trimEnd] removes
    from the region, white space of any kind; it is the number of line
    feeds removed exactly when nothing but line feeds is removed. *)
Theorem endingWhitespace_counts_whitespace (i : nat) (a b : Z) :
  let region := substring content a b in
  allRanges rangesForTopLevelForms content !! i = Some (a, b) ->
  Nat.even i = true ->
  a <> b ->
  isCommentBlock region = true ->
  exists c m,
    mappedRanges rangesForTopLevelForms content !! i = Some c /\
    hasValue c = true /\
    metadata c = Some m /\
    region = trimEnd region ++ trailingWhiteSpace region /\
    forallb isWhiteSpace (trailingWhiteSpace region) = true /\
    endingWhitespace m = jslength (trailingWhiteSpace region) /\
    (endingWhitespace m = Z.of_nat (countLF (trailingWhiteSpace region))
     <-> onlyLF (trailingWhiteSpace region) = true).
Proof.
  intros region Hi Heven Hab Hblock.
  exists (cellOfRange content (a, b) 0). eexists.
  split; [|split; [|split; [|split; [|split; [|split]]]]].
  - unfold mappedRanges. rewrite list_lookup_imap, Hi.
    cbn [fmap option_fmap option_map]. by rewrite cellOfRange_parity, Heven.
  - apply startsWith_app in Hblock as Hrest. destruct Hrest as [rest Hrest].
    destruct (commentValue_head rest) as [tail Htail].
    rewrite commentCell by done. unfold hasValue. cbn [value].
    fold region. by rewrite Hrest, Htail.
  - by rewrite commentCell.
  - apply trimEnd_split.
  - apply trimEnd_split.
  - done.
  - cbn [endingWhitespace]. fold region. rewrite <- countLF_all.
    unfold jslength. lia.
Qed.

Lemma commentCells_from (isSeparator : bool) (l : list (Z * Z)) :
  Forall (fun c => forall m, metadata c = Some m ->
                   asMarkdown m = true /\ startingWhitespace m = 1 /\
                   exists tail, value c = LF :: tail)
    (List.filter hasValue (cellsFrom content isSeparator l)).
Proof.
  revert isSeparator.
  induction l as [|[a b] l IH]; intros isSep; cbn [cellsFrom List.filter];
    [constructor|].
  destruct (hasValue _); [|apply IH]. constructor; [|apply IH].
  destruct isSep; [|by rewrite codeCell].
  destruct (Z.eqb_spec a b) as [->|Hab]; [by rewrite emptySeparatorCell|].
  destruct (isCommentBlock (substring content a b)) eqn:Hblock;
    [|by rewrite plainCell].
  rewrite commentCell by done. cbn [metadata value]. intros m [= <-].
  apply startsWith_app in Hblock as [rest ->]. cbn [asMarkdown startingWhitespace].
  auto using commentValue_head.
Qed.

(** C10.  Every cell of the splitter that carries [metadata] has
    [asMarkdown] set, a [startingWhitespace] of 1 and a content that starts
    with a line feed; the offset is 1 because the marker is first found
    right after the first of the two line feeds. *)
Theorem commentCell_leading :
  Forall (fun c => forall m, metadata c = Some m ->
                   asMarkdown m = true /\ startingWhitespace m = 1 /\
                   exists tail, value c = LF :: tail)
    (parseClojure rangesForTopLevelForms content) /\
  (forall rest, indexOf (js "\n\n;; " ++ rest) (js "\n;; ") = 1).
Proof.
  split; [|apply indexOf_after_LF].
  unfold parseClojure. rewrite mappedRanges_cells. apply commentCells_from.
Qed.

End Counts.

Lemma endingWhitespace_counts_whitespace_witness :
  exists c m,
    mappedRanges scenarioForms scenarioText !! 2%nat = Some c /\
    hasValue c = true /\
    metadata c = Some m /\
    substring scenarioText 7 28
    = trimEnd (substring scenarioText 7 28)
      ++ trailingWhiteSpace (substring scenarioText 7 28) /\
    forallb isWhiteSpace (trailingWhiteSpace (substring scenarioText 7 28)) = true /\
    endingWhitespace m = jslength (trailingWhiteSpace (substring scenarioText 7 28)) /\
    (endingWhitespace m
     = Z.of_nat (countLF (trailingWhiteSpace (substring scenarioText 7 28)))
     <-> onlyLF (trailingWhiteSpace (substring scenarioText 7 28)) = true).
Proof.
  apply (endingWhitespace_counts_whitespace scenarioForms scenarioText 2 7 28);
    [vm_compute; reflexivity | vm_compute; reflexivity | lia
    | vm_compute; reflexivity].
Defined.

(** C5 as stated fails.  The separator region ends in a space and a line
    feed: [trimEnd] removes one line feed and the splitter records 2. *)
Lemma endingWhitespace_counterexample :
  let region := substring trailingSpaceText 0 9 in
  allRanges trailingSpaceSpans trailingSpaceText !! 0%nat = Some (0, 9) /\
  isCommentBlock region = true /\
  trailingWhiteSpace region = [SPACE; LF] /\
  countLF (trailingWhiteSpace region) = 1%nat /\
  (metadata <$> parseClojure trailingSpaceSpans trailingSpaceText !! 0%nat)
  = Some (Some {| asMarkdown := true; startingWhitespace := 1;
                  endingWhitespace := 2 |}) /\
  2 <> Z.of_nat (countLF (trailingWhiteSpace region)).
Proof. repeat split; try (vm_compute; reflexivity). vm_compute. discriminate. Qed.

(** * JSON rendering: when it throws *)

Section JsonFacts.

(** Induction on a value and the values it holds. *)
Lemma JsValue_nested_ind (P : JsValue -> Prop) :
  P JsUndefined -> P JsNull -> (forall b, P (JsBool b)) ->
  (forall n, P (JsNumber n)) -> (forall n, P (JsBigInt n)) ->
  (forall s, P (JsText s)) ->
  (forall items, Forall P items -> P (JsArray items)) ->
  (forall props, Forall (fun p => P p.2) props -> P (JsObject props)) ->
  (forall name message props,
     Forall (fun p => P p.2) props -> P (JsErrorObject name message props)) ->
  P JsCircular ->
  forall v, P v.
Proof.
  intros Hu Hn Hb Hnum Hbig Ht Harr Hobj Herr Hc. fix IH 1.
  intros [ | |b|n|n|s|items|props|name message props| ];
    try (clear IH; auto; fail).
  - apply Harr. induction items as [|x items IHitems]; constructor;
      [apply IH | exact IHitems].
  - apply Hobj. induction props as [|p props IHprops]; constructor;
      [apply IH | exact IHprops].
  - apply Herr. induction props as [|p props IHprops]; constructor;
      [apply IH | exact IHprops].
Qed.

Lemma serialize_array (gap indent : jsstring) (items : list JsValue) :
  JSON.serialize gap indent (JsArray items)
  = (partial ← JSON.elements (JSON.serialize gap) (indent ++ gap) items;
     Ok (Some (JSON.bracket "[" "]" indent (indent ++ gap) partial))).
Proof. reflexivity. Qed.

Lemma serialize_object (gap indent : jsstring) (props : list (jsstring * JsValue)) :
  JSON.serialize gap indent (JsObject props)
  = (partial ← JSON.members (JSON.serialize gap) (indent ++ gap) props;
     Ok (Some (JSON.bracket "{" "}" indent (indent ++ gap) partial))).
Proof. reflexivity. Qed.

(** An [Error] is written as the object of its own enumerable properties. *)
Lemma serialize_error (gap indent name message : jsstring)
    (props : list (jsstring * JsValue)) :
  JSON.serialize gap indent (JsErrorObject name message props)
  = JSON.serialize gap indent (JsObject props).
Proof. reflexivity. Qed.

Lemma elements_isOk (ser : jsstring -> JsValue -> JsResult (option jsstring))
    (items : list JsValue) :
  Forall (fun v => forall indent, isOk (ser indent v) = renderable v) items ->
  forall indent, isOk (JSON.elements ser indent items) = forallb renderable items.
Proof.
  induction 1 as [|x items Hx _ IH]; intros indent; [done|].
  cbn [JSON.elements forallb]. rewrite <- (Hx indent), <- (IH indent).
  destruct (ser indent x); [|done]. cbn [mbind Completion_bind bindR isOk].
  by destruct (JSON.elements ser indent items).
Qed.

Lemma members_isOk (ser : jsstring -> JsValue -> JsResult (option jsstring))
    (props : list (jsstring * JsValue)) :
  Forall (fun p => forall indent, isOk (ser indent p.2) = renderable p.2) props ->
  forall indent,
    isOk (JSON.members ser indent props)
    = forallb (fun p => renderable p.2) props.
Proof.
  induction 1 as [|p props Hp _ IH]; intros indent; [done|].
  cbn [JSON.members forallb]. rewrite <- (Hp indent), <- (IH indent).
  destruct (ser indent p.2); [|done]. cbn [mbind Completion_bind bindR isOk].
  by destruct (JSON.members ser indent props).
Qed.

(** The rendering returns exactly on the values that hold no BigInt and no
    circular reference. *)
Lemma serialize_isOk (gap : jsstring) (v : JsValue) :
  forall indent, isOk (JSON.serialize gap indent v) = renderable v.
Proof.
  induction v as [ | |b|n|n|s|items IH|props IH|name message props IH| ]
    using JsValue_nested_ind; intros indent; try done.
  - rewrite serialize_array. cbn [renderable].
    rewrite <- (elements_isOk (JSON.serialize gap) items IH (indent ++ gap)).
    by destruct (JSON.elements _ _ _).
  - rewrite serialize_object. cbn [renderable].
    rewrite <- (members_isOk (JSON.serialize gap) props IH (indent ++ gap)).
    by destruct (JSON.members _ _ _).
  - rewrite serialize_error, serialize_object. cbn [renderable].
    rewrite <- (members_isOk (JSON.serialize gap) props IH (indent ++ gap)).
    by destruct (JSON.members _ _ _).
Qed.

Lemma elements_throws (ser : jsstring -> JsValue -> JsResult (option jsstring))
    (items : list JsValue) :
  Forall (fun v => forall indent e, ser indent v = Throw e -> e = TypeError) items ->
  forall indent e, JSON.elements ser indent items = Throw e -> e = TypeError.
Proof.
  induction 1 as [|x items Hx _ IH]; intros indent e; [done|].
  cbn [JSON.elements]. destruct (ser indent x) eqn:Hser.
  - cbn [mbind Completion_bind bindR].
    destruct (JSON.elements ser indent items) eqn:Hrest; [done|].
    intros [= <-]. eauto.
  - intros [= <-]. eauto.
Qed.

Lemma members_throws (ser : jsstring -> JsValue -> JsResult (option jsstring))
    (props : list (jsstring * JsValue)) :
  Forall (fun p => forall indent e, ser indent p.2 = Throw e -> e = TypeError) props ->
  forall indent e, JSON.members ser indent props = Throw e -> e = TypeError.
Proof.
  induction 1 as [|p props Hp _ IH]; intros indent e; [done|].
  cbn [JSON.members]. destruct (ser indent p.2) eqn:Hser.
  - cbn [mbind Completion_bind bindR].
    destruct (JSON.members ser indent props) eqn:Hrest; [done|].
    intros [= <-]. eauto.
  - intros [= <-]. eauto.
Qed.

(** What the rendering throws is a [TypeError]. *)
Lemma serialize_throws (gap : jsstring) (v : JsValue) :
  forall indent e, JSON.serialize gap indent v = Throw e -> e = TypeError.
Proof.
  induction v as [ | |b|n|n|s|items IH|props IH|name message props IH| ]
    using JsValue_nested_ind; intros indent e; try done;
    try (by intros [= <-]).
  - rewrite serialize_array.
    destruct (JSON.elements _ _ _) eqn:Hparts; [done|].
    intros [= <-]. eapply elements_throws; eauto.
  - rewrite serialize_object.
    destruct (JSON.members _ _ _) eqn:Hparts; [done|].
    intros [= <-]. eapply members_throws; eauto.
  - rewrite serialize_error, serialize_object.
    destruct (JSON.members _ _ _) eqn:Hparts; [done|].
    intros [= <-]. eapply members_throws; eauto.
Qed.


(** *** The item of the [catch] block *)

(** The item is an error item. *)
Lemma errorItem_is_error (err : JsValue) (item : NotebookCellOutputItem) :
  errorItem err = Ok item -> exists name message, item = ErrorItem name message.
Proof.
  unfold errorItem.
  destruct (match err with
            | JsErrorObject _ m _ =>
                if bool_decide (m = []) then JSON.stringify4 err else Ok (Some m)
            | _ => JSON.stringify4 err
            end) as [m|e]; [|done].
  cbn [mbind Completion_bind bindR]. intros [= <-]. by eexists _, _.
Qed.

(** The name of the item. *)
Lemma errorItem_name (err : JsValue) (name : jsstring) (message : option jsstring) :
  errorItem err = Ok (ErrorItem name message) ->
  name <> [] /\
  (instanceofError err = false -> name = js "error") /\
  (forall n m props, err = JsErrorObject n m props ->
   name = if bool_decide (n = []) then js "error" else n).
Proof.
  unfold errorItem. intros H.
  assert (Hname : name = match err with
                         | JsErrorObject n _ _ =>
                             if bool_decide (n = []) then js "error" else n
                         | _ => js "error"
                         end).
  { destruct (match err with
              | JsErrorObject _ m _ =>
                  if bool_decide (m = []) then JSON.stringify4 err
                  else Ok (Some m)
              | _ => JSON.stringify4 err
              end); [|done].
    cbn [mbind Completion_bind bindR] in H. congruence. }
  split; [|split].
  - rewrite Hname. destruct err; try done. by case_bool_decide.
  - rewrite Hname. by destruct err.
  - intros n m props ->. done.
Qed.

(** The item of a value that is no [Error]. *)
Lemma errorItem_other (err : JsValue) :
  instanceofError err = false ->
  errorItem err
  = (message ← JSON.stringify4 err; Ok (ErrorItem (js "error") message)).
Proof. by destruct err. Qed.

(** The item of an [Error]. *)
Lemma errorItem_error (name message : jsstring) (props : list (jsstring * JsValue)) :
  errorItem (JsErrorObject name message props)
  = (text ← (if bool_decide (message = [])
             then JSON.stringify4 (JsObject props)
             else Ok (Some message));
     Ok (ErrorItem (if bool_decide (name = []) then js "error" else name) text)).
Proof. reflexivity. Qed.

(** The [catch] block builds its item unless the value thrown holds a
    BigInt or a circular reference and is no [Error] with a message. *)
Lemma errorItem_isOk (err : JsValue) :
  isOk (errorItem err)
  = renderable err
    || match err with
       | JsErrorObject _ message _ => negb (bool_decide (message = []))
       | _ => false
       end.
Proof.
  destruct err as [ | |b|n|n|s|items|props|name message props| ];
    try (rewrite errorItem_other by done; unfold JSON.stringify4;
         rewrite <- (serialize_isOk (js "    ") _ []), orb_false_r;
         by destruct (JSON.serialize _ _ _)).
  rewrite errorItem_error. destruct (bool_decide (message = [])); cbn [negb].
  - rewrite orb_false_r. unfold JSON.stringify4.
    rewrite <- (serialize_isOk (js "    ") (JsErrorObject name message props) []),
      serialize_error.
    by destruct (JSON.serialize _ _ _).
  - by rewrite orb_true_r.
Qed.

Lemma errorItem_throws (err : JsValue) (e : JsException) :
  errorItem err = Throw e -> e = TypeError.
Proof.
  unfold errorItem.
  destruct (match err with
            | JsErrorObject _ m _ =>
                if bool_decide (m = []) then JSON.stringify4 err else Ok (Some m)
            | _ => JSON.stringify4 err
            end) as [m|e'] eqn:Hm; [done|].
  cbn [mbind Completion_bind bindR]. intros [= <-].
  destruct err; try (by eapply serialize_throws).
  case_bool_decide; [by eapply serialize_throws|done].
Qed.


End JsonFacts.

(** * The execution pipeline *)

Section PipelineFacts.

Context {Session : Type}.
Variable dateNow : Session -> Z * Session.
Variable evaluateCode :
  jsstring -> Session -> Completion JsValue jsstring * Session.
Variable prettyPrint : jsstring -> Completion JsValue jsstring.

Local Abbreviation evaluation' := (evaluation dateNow evaluateCode).
Local Abbreviation attempt' := (attempt dateNow evaluateCode prettyPrint).
Local Abbreviation doExecution' := (doExecution dateNow evaluateCode prettyPrint).
Local Abbreviation executeAll' := (executeAll dateNow evaluateCode prettyPrint).
Local Abbreviation recordOf' := (recordOf dateNow evaluateCode prettyPrint).
Local Abbreviation executionRecords' :=
  (executionRecords dateNow evaluateCode prettyPrint).
Local Abbreviation monotoneClock' := (monotoneClock dateNow evaluateCode).

(** One execution, by what the [try] block and the [catch] block give:
    four calls and a resolved promise, or two calls and a rejected one. *)
Lemma doExecution_outcome (cell : NotebookCell) (w : World Session) :
  doExecution' cell w
  = let s := (evaluation' cell (session w)).2 in
    match outcome (attempt' cell (session w)) with
    | Ok reported =>
        ({| session := (dateNow s).2;
            calls := calls w ++
              [ CreateNotebookCellExecution cell;
                ExecutionStart cell (dateNow (session w)).1;
                ReplaceOutput cell [reported.1];
                ExecutionEnd cell reported.2 (dateNow s).1 ] |}, Ok tt)
    | Throw e =>
        ({| session := s;
            calls := calls w ++
              [ CreateNotebookCellExecution cell;
                ExecutionStart cell (dateNow (session w)).1 ] |}, Throw e)
    end.
Proof.
  unfold doExecution, attempt, evaluation, outcome, call, setSession.
  cbn [session calls].
  destruct (dateNow (session w)) as [t0 s1]. cbn [fst snd session calls].
  destruct (evaluateCode (getText cell) s1) as [answer s2].
  cbn [fst snd session calls].
  destruct (render prettyPrint answer) as [output|err].
  - destruct (dateNow s2) as [t1 s3]. cbn [session calls fst snd].
    by rewrite <- !app_assoc.
  - destruct (errorItem err) as [item|e];
      cbn [mbind Completion_bind bindR session calls].
    + destruct (dateNow s2) as [t1 s3]. cbn [session calls fst snd].
      by rewrite <- !app_assoc.
    + by rewrite <- !app_assoc.
Qed.

Lemma recordOf_Ok (cell : NotebookCell) (w : World Session)
    (reported : NotebookCellOutput * bool) :
  outcome (attempt' cell (session w)) = Ok reported ->
  recordOf' cell w
  = Ok {| recordCell := cell;
          startedAt := (dateNow (session w)).1;
          outputs := [reported.1];
          succeeded := reported.2;
          endedAt := (dateNow (evaluation' cell (session w)).2).1 |}.
Proof. unfold recordOf. by intros ->. Qed.

(** A resolved execution appends the four calls of its record. *)
Lemma doExecution_resolved (cell : NotebookCell) (w : World Session)
    (r : ExecutionRecord) :
  recordOf' cell w = Ok r ->
  doExecution' cell w
  = ({| session := (dateNow (evaluation' cell (session w)).2).2;
        calls := calls w ++ callsOfRecord r |}, Ok tt).
Proof.
  rewrite doExecution_outcome. unfold recordOf.
  destruct (outcome (attempt' cell (session w))) as [reported|e]; [|done].
  cbn [mbind Completion_bind bindR]. by intros [= <-].
Qed.

(** A rejected execution appends the calls that create and start it, and
    no other. *)
Lemma doExecution_rejected (cell : NotebookCell) (w : World Session)
    (e : JsException) :
  recordOf' cell w = Throw e ->
  doExecution' cell w
  = ({| session := (evaluation' cell (session w)).2;
        calls := calls w ++
          [ CreateNotebookCellExecution cell;
            ExecutionStart cell (dateNow (session w)).1 ] |}, Throw e).
Proof.
  rewrite doExecution_outcome. unfold recordOf.
  destruct (outcome (attempt' cell (session w))) as [reported|e']; [done|].
  cbn [mbind Completion_bind bindR]. by intros [= <-].
Qed.

Lemma recordOf_throws (cell : NotebookCell) (w : World Session)
    (e : JsException) :
  recordOf' cell w = Throw e ->
  e = TypeError /\
  exists err, attempt' cell (session w) = Throw err /\ errorItem err = Throw e.
Proof.
  unfold recordOf, outcome.
  destruct (attempt' cell (session w)) as [output|err]; [done|].
  destruct (errorItem err) as [item|e'] eqn:Hitem; [done|].
  cbn [mbind Completion_bind bindR]. intros [= <-].
  split; [by eapply errorItem_throws|]. by exists err.
Qed.

Lemma recordOf_cell (cell : NotebookCell) (w : World Session)
    (r : ExecutionRecord) :
  recordOf' cell w = Ok r -> recordCell r = cell.
Proof.
  unfold recordOf. destruct (outcome _); [|done].
  cbn [mbind Completion_bind bindR]. by intros [= <-].
Qed.

Lemma recordOf_times (cell : NotebookCell) (w : World Session)
    (r : ExecutionRecord) :
  recordOf' cell w = Ok r ->
  startedAt r = (dateNow (session w)).1 /\
  endedAt r = (dateNow (evaluation' cell (session w)).2).1.
Proof.
  unfold recordOf. destruct (outcome _); [|done].
  cbn [mbind Completion_bind bindR]. by intros [= <-].
Qed.

(** The log of earlier calls plays no part in a record. *)
Lemma recordOf_ignores_calls (cell : NotebookCell) (w : World Session)
    (log : list HostCall) :
  recordOf' cell {| session := session w; calls := log |} = recordOf' cell w.
Proof. done. Qed.

Lemma executeAll_cons_resolved (cell : NotebookCell) (cells : list NotebookCell)
    (w : World Session) :
  (doExecution' cell w).2 = Ok tt ->
  executeAll' (cell :: cells) w = executeAll' cells (doExecution' cell w).1.
Proof.
  cbn [executeAll]. destruct (doExecution' cell w) as [w' [[]|e]]; done.
Qed.

Lemma executeAll_cons_rejected (cell : NotebookCell) (cells : list NotebookCell)
    (w : World Session) (e : JsException) :
  (doExecution' cell w).2 = Throw e ->
  executeAll' (cell :: cells) w = doExecution' cell w.
Proof.
  cbn [executeAll]. destruct (doExecution' cell w) as [w' [[]|e']]; [done|].
  cbn [snd]. by intros [= ->].
Qed.

(** A run goes on with the cells that follow when the cells before them
    are resolved. *)
Lemma executeAll_app_resolved (pre post : list NotebookCell) (w : World Session) :
  (executeAll' pre w).2 = Ok tt ->
  executeAll' (pre ++ post) w = executeAll' post (executeAll' pre w).1.
Proof.
  revert w. induction pre as [|c pre IH]; intros w; [done|].
  cbn [app executeAll]. destruct (doExecution' c w) as [w' [[]|e]]; [|done].
  apply IH.
Qed.

(** A run stops where it is rejected. *)
Lemma executeAll_app_rejected (pre post : list NotebookCell) (w : World Session)
    (e : JsException) :
  (executeAll' pre w).2 = Throw e ->
  executeAll' (pre ++ post) w = executeAll' pre w.
Proof.
  revert w. induction pre as [|c pre IH]; intros w; [done|].
  cbn [app executeAll]. destruct (doExecution' c w) as [w' [[]|e']]; [|done].
  apply IH.
Qed.

Lemma executionRecords_app_resolved (pre post : list NotebookCell)
    (w : World Session) :
  (executeAll' pre w).2 = Ok tt ->
  executionRecords' (pre ++ post) w
  = executionRecords' pre w ++ executionRecords' post (executeAll' pre w).1.
Proof.
  revert w. induction pre as [|c pre IH]; intros w; [done|].
  cbn [app executionRecords executeAll].
  destruct (recordOf' c w) as [r|e] eqn:Hr.
  - rewrite (doExecution_resolved _ _ _ Hr). cbn [fst snd app].
    intros H. by rewrite IH.
  - by rewrite (doExecution_rejected _ _ _ Hr).
Qed.

(** The records of a resolved run: one for each cell, in the order of the
    cells, and the log is their calls. *)
Lemma executeAll_resolved (cells : list NotebookCell) (w : World Session) :
  (executeAll' cells w).2 = Ok tt ->
  map recordCell (executionRecords' cells w) = cells /\
  calls (executeAll' cells w).1
  = calls w ++ concat (map callsOfRecord (executionRecords' cells w)).
Proof.
  revert w. induction cells as [|c cells IH]; intros w.
  - intros _. cbn. by rewrite app_nil_r.
  - cbn [executeAll executionRecords].
    destruct (recordOf' c w) as [r|e] eqn:Hr.
    + rewrite (doExecution_resolved _ _ _ Hr). cbn [fst snd].
      intros H. destruct (IH _ H) as [Hcells Hcalls].
      cbn [map concat]. rewrite (recordOf_cell _ _ _ Hr), Hcells, Hcalls.
      cbn [calls]. by rewrite <- app_assoc.
    + by rewrite (doExecution_rejected _ _ _ Hr).
Qed.

(** The records of a rejected run: one for each cell before the one whose
    [catch] block threw; that cell is created and started and that is the
    end of the log. *)
Lemma executeAll_rejected (cells : list NotebookCell) (w : World Session)
    (e : JsException) :
  (executeAll' cells w).2 = Throw e ->
  let records := executionRecords' cells w in
  e = TypeError /\
  map recordCell records = take (length records) cells /\
  exists cell t,
    cells !! length records = Some cell /\
    calls (executeAll' cells w).1
    = calls w ++ concat (map callsOfRecord records)
      ++ [CreateNotebookCellExecution cell; ExecutionStart cell t].
Proof.
  revert w. induction cells as [|c cells IH]; intros w; [done|].
  cbn [executeAll executionRecords].
  destruct (recordOf' c w) as [r|e'] eqn:Hr.
  - rewrite (doExecution_resolved _ _ _ Hr). cbn [fst snd].
    intros H. destruct (IH _ H) as (He & Hcells & cell & t & Hcell & Hcalls).
    split; [done|]. cbn [length take map concat]. split.
    + by rewrite (recordOf_cell _ _ _ Hr), Hcells.
    + exists cell, t. split; [done|]. rewrite Hcalls. cbn [calls].
      by rewrite <- !app_assoc.
  - rewrite (doExecution_rejected _ _ _ Hr). cbn [fst snd].
    intros [= <-]. split; [by apply (recordOf_throws _ _ _ Hr)|].
    split; [done|]. by exists c, (dateNow (session w)).1.
Qed.

(** On a clock that does not go backwards, the records of a run follow one
    another in time. *)
Lemma executionRecords_chronological (time : Session -> Z)
    (cells : list NotebookCell) (w : World Session) :
  monotoneClock' time ->
  chronological (time (session w)) (executionRecords' cells w).
Proof.
  intros [Hnow Heval]. revert w.
  induction cells as [|c cells IH]; intros w; [done|].
  cbn [executionRecords].
  destruct (recordOf' c w) as [r|e] eqn:Hr; [|done].
  destruct (recordOf_times _ _ _ Hr) as [Hstart Hend].
  cbn [chronological]. rewrite (doExecution_resolved _ _ _ Hr). cbn [fst].
  pose proof (IH {| session := (dateNow (evaluation' c (session w)).2).2;
                    calls := calls w ++ callsOfRecord r |}) as Hrest.
  cbn [session] in Hrest.
  pose proof (Hnow (session w)) as [H1 H2].
  pose proof (Heval (getText c) (dateNow (session w)).2) as H3.
  pose proof (Hnow (evaluation' c (session w)).2) as [H4 H5].
  unfold evaluation in *.
  split; [lia|]. split; [lia|].
  rewrite Hend.
  clear -Hrest H5. revert Hrest.
  generalize (executionRecords' cells
    {| session := (dateNow (evaluateCode (getText c) (dateNow (session w)).2).2).2;
       calls := calls w ++ callsOfRecord r |}).
  intros [|r' rest]; [done|]. cbn [chronological]. intros (? & ? & ?).
  split; [lia|]. done.
Qed.

(** *** Quote stripping *)

Lemma dropTrailingQuote_quoted (m : jsstring) : dropTrailingQuote (m ++ [DQUOTE]) = m.
Proof.
  unfold dropTrailingQuote. rewrite last_snoc, N.eqb_refl, length_app. cbn [length].
  replace (Nat.pred (length m + 1)) with (length m) by lia.
  apply take_app_length.
Qed.

(** A result between two quotes loses exactly those two. *)
Lemma stripQuotes_quoted (m : jsstring) :
  stripQuotes (DQUOTE :: m ++ [DQUOTE]) = m.
Proof. unfold stripQuotes. rewrite N.eqb_refl. apply dropTrailingQuote_quoted. Qed.

(** A result without a quote at either end is left as it is. *)
Lemma stripQuotes_plain (c : N) (s : jsstring) :
  c <> DQUOTE -> last (c :: s) <> Some DQUOTE -> stripQuotes (c :: s) = c :: s.
Proof.
  intros Hc Hlast. unfold stripQuotes. apply N.eqb_neq in Hc as ->.
  unfold dropTrailingQuote. destruct (last (c :: s)) as [d|]; [|done].
  destruct (N.eqb_spec d DQUOTE) as [->|]; done.
Qed.

(** *** One cell *)

Lemma attempt_success (cell : NotebookCell) (s : Session)
    (response pretty : jsstring) :
  (evaluation' cell s).1 = Ok response ->
  prettyPrint response = Ok pretty ->
  attempt' cell s = Ok (successItems response pretty).
Proof.
  intros Heval Hpretty. unfold attempt, render. rewrite Heval.
  cbn [mbind Completion_bind bindR]. by rewrite Hpretty.
Qed.

(** A cell whose [try] block completes. *)
Lemma doExecution_success (cell : NotebookCell) (w : World Session)
    (output : NotebookCellOutput) :
  attempt' cell (session w) = Ok output ->
  doExecution' cell w
  = ({| session := (dateNow (evaluation' cell (session w)).2).2;
        calls := calls w ++
          [ CreateNotebookCellExecution cell;
            ExecutionStart cell (dateNow (session w)).1;
            ReplaceOutput cell [output];
            ExecutionEnd cell true (dateNow (evaluation' cell (session w)).2).1 ]
     |}, Ok tt).
Proof. intros H. rewrite doExecution_outcome, H. done. Qed.

(** A cell whose [try] block throws and whose [catch] block completes. *)
Lemma doExecution_failure (cell : NotebookCell) (w : World Session)
    (err : JsValue) (item : NotebookCellOutputItem) :
  attempt' cell (session w) = Throw err ->
  errorItem err = Ok item ->
  doExecution' cell w
  = ({| session := (dateNow (evaluation' cell (session w)).2).2;
        calls := calls w ++
          [ CreateNotebookCellExecution cell;
            ExecutionStart cell (dateNow (session w)).1;
            ReplaceOutput cell [[item]];
            ExecutionEnd cell false (dateNow (evaluation' cell (session w)).2).1 ]
     |}, Ok tt).
Proof.
  intros H Hitem. rewrite doExecution_outcome, H. cbn [outcome].
  rewrite Hitem. done.
Qed.

(** A cell whose [try] block throws and whose [catch] block throws. *)
Lemma doExecution_catch_throws (cell : NotebookCell) (w : World Session)
    (err : JsValue) (e : JsException) :
  attempt' cell (session w) = Throw err ->
  errorItem err = Throw e ->
  doExecution' cell w
  = ({| session := (evaluation' cell (session w)).2;
        calls := calls w ++
          [ CreateNotebookCellExecution cell;
            ExecutionStart cell (dateNow (session w)).1 ] |}, Throw TypeError).
Proof.
  intros H Hitem. rewrite doExecution_outcome, H. cbn [outcome].
  rewrite Hitem. cbn [mbind Completion_bind bindR].
  by rewrite (errorItem_throws _ _ Hitem).
Qed.

(** C6.  When the evaluator answers [response] and the pretty printer
    [pretty], the execution is resolved after four calls on the host:
    the one output handed to it holds, in this order, the response as
    plain text, the pretty form in a fenced [clojure] block as markdown
    and the response again as EDN; the response without its leading and
    its trailing double quote follows as HTML exactly when it starts with
    [<html]; the execution ends as a success. *)
Theorem success_outputs (cell : NotebookCell) (w : World Session)
    (response pretty : jsstring) :
  (evaluation' cell (session w)).1 = Ok response ->
  prettyPrint response = Ok pretty ->
  let base :=
    [ TextItem (js "text/plain") response;
      TextItem (js "text/markdown") (js "```clojure\n" ++ pretty ++ js "\n```");
      TextItem (js "x-application/edn") response ] in
  let html := TextItem (js "text/html") (stripQuotes response) in
  let items :=
    if startsWith (stripQuotes response) (js "<html")
    then base ++ [html] else base in
  doExecution' cell w
  = ({| session := (dateNow (evaluation' cell (session w)).2).2;
        calls := calls w ++
          [ CreateNotebookCellExecution cell;
            ExecutionStart cell (dateNow (session w)).1;
            ReplaceOutput cell [items];
            ExecutionEnd cell true (dateNow (evaluation' cell (session w)).2).1 ]
     |}, Ok tt) /\
  (In html items <-> startsWith (stripQuotes response) (js "<html") = true) /\
  (forall m, response = DQUOTE :: m ++ [DQUOTE] -> stripQuotes response = m).
Proof.
  intros Heval Hpretty base html items.
  split; [|split].
  - apply doExecution_success. by apply attempt_success.
  - subst items. destruct (startsWith (stripQuotes response) (js "<html")).
    + split; [done|]. intros _. apply in_or_app. right. by left.
    + split; [|done]. subst base html. cbn [In].
      intros [H|[H|[H|[]]]]; discriminate.
  - intros m ->. apply stripQuotes_quoted.
Qed.

(** *** Failures *)

(** C8, as amended.  When the [try] block of a cell throws [err] and the
    [catch] block builds its item, the cell gets one output with that one
    item and ends as a failure; the item is built for every value that
    holds no BigInt and no circular reference.  For a value that is no
    [Error] the name is [error] and the message is the JSON rendering of
    the value with an indentation of four.  For an [Error] the item
    carries its name when that is not empty and its message when that is
    not empty; an empty name becomes [error] and an empty message becomes
    the JSON rendering of the error object, which is the rendering of its
    own enumerable properties, [{}] when there are none. *)
Theorem error_descriptor (cell : NotebookCell) (w : World Session)
    (err : JsValue) :
  attempt' cell (session w) = Throw err ->
  (forall item, errorItem err = Ok item ->
   doExecution' cell w
   = ({| session := (dateNow (evaluation' cell (session w)).2).2;
         calls := calls w ++
           [ CreateNotebookCellExecution cell;
             ExecutionStart cell (dateNow (session w)).1;
             ReplaceOutput cell [[item]];
             ExecutionEnd cell false
               (dateNow (evaluation' cell (session w)).2).1 ] |}, Ok tt)) /\
  (renderable err = true -> exists item, errorItem err = Ok item) /\
  (instanceofError err = false ->
   errorItem err
   = (message ← JSON.stringify4 err; Ok (ErrorItem (js "error") message))) /\
  (forall name message props, err = JsErrorObject name message props ->
   errorItem err
   = (text ← (if bool_decide (message = []) then JSON.stringify4 err
              else Ok (Some message));
      Ok (ErrorItem (if bool_decide (name = []) then js "error" else name)
            text)) /\
   JSON.stringify4 err = JSON.stringify4 (JsObject props) /\
   (props = [] -> JSON.stringify4 err = Ok (Some (js "{}")))).
Proof.
  intros Hattempt. split; [|split; [|split]].
  - intros item Hitem. by apply doExecution_failure with err.
  - intros Hr. pose proof (errorItem_isOk err) as H. rewrite Hr in H.
    destruct (errorItem err) as [item|e]; [by exists item|done].
  - apply errorItem_other.
  - intros name message props ->. split; [done|]. split; [done|].
    by intros ->.
Qed.

(** *** The run *)

(** C9, as amended.  In a run where no [catch] block throws, the calls on
    the host are the calls of one record for each cell, in the order of the
    cells, so the end of a record is logged before the next cell is
    created and started.  The times of a record are readings of the wall
    clock: on a clock that does not go backwards no record starts before
    the run does or ends before it starts, and each starts no earlier than
    the one before it ended. *)
Theorem executeAll_sequential (cells : list NotebookCell) (w : World Session) :
  (executeAll' cells w).2 = Ok tt ->
  let records := executionRecords' cells w in
  calls (executeAll' cells w).1
  = calls w ++ concat (map callsOfRecord records) /\
  map recordCell records = cells /\
  forall time, monotoneClock' time -> chronological (time (session w)) records.
Proof.
  intros Hrun records. destruct (executeAll_resolved cells w Hrun) as [Hcells Hcalls].
  split; [done|]. split; [done|].
  intros time Hclock. by apply executionRecords_chronological.
Qed.

(** *** The shape of the records *)

Lemma successItems_shape (response pretty : jsstring) :
  exists fenced,
    let base := [ TextItem (js "text/plain") response;
                  TextItem (js "text/markdown") fenced;
                  TextItem (js "x-application/edn") response ] in
    successItems response pretty = base \/
    exists html, successItems response pretty
                 = base ++ [TextItem (js "text/html") html].
Proof.
  eexists. unfold successItems.
  destruct (startsWith _ _); [right; eexists|left]; reflexivity.
Qed.

Lemma recordOf_shape (cell : NotebookCell) (w : World Session)
    (r : ExecutionRecord) :
  recordOf' cell w = Ok r -> recordShape r.
Proof.
  assert (Hfail : forall err item,
            errorItem err = Ok item ->
            exists name message, [item] = [ErrorItem name message] /\ name <> []).
  { intros err item Hitem.
    destruct (errorItem_is_error _ _ Hitem) as (name & message & ->).
    exists name, message. split; [done|]. by apply (errorItem_name _ _ _ Hitem). }
  unfold recordOf, recordShape, attempt, render.
  destruct (evaluation' cell (session w)).1 as [response|err];
    cbn [mbind Completion_bind bindR outcome].
  - destruct (prettyPrint response) as [pretty|err];
      cbn [mbind Completion_bind bindR outcome].
    + intros [= <-]. cbn [outputs succeeded fst snd]. eexists. split; [done|].
      exists response. apply successItems_shape.
    + destruct (errorItem err) as [item|e] eqn:Hitem;
        cbn [mbind Completion_bind bindR]; [|done].
      intros [= <-]. cbn [outputs succeeded fst snd]. eexists. split; [done|].
      by apply (Hfail err).
  - destruct (errorItem err) as [item|e] eqn:Hitem;
      cbn [mbind Completion_bind bindR]; [|done].
    intros [= <-]. cbn [outputs succeeded fst snd]. eexists. split; [done|].
    by apply (Hfail err).
Qed.

Lemma executionRecords_shape (cells : list NotebookCell) (w : World Session) :
  Forall recordShape (executionRecords' cells w).
Proof.
  revert w. induction cells as [|c cells IH]; intros w; [constructor|].
  cbn [executionRecords]. destruct (recordOf' c w) as [r|e] eqn:Hr; [|constructor].
  constructor; [by eapply recordOf_shape | apply IH].
Qed.

Lemma executionRecords_length (cells : list NotebookCell) (w : World Session) :
  (executeAll' cells w).2 = Ok tt ->
  length (executionRecords' cells w) = length cells.
Proof.
  intros H. destruct (executeAll_resolved cells w H) as [Hcells _].
  by rewrite <- Hcells at 2; rewrite length_map.
Qed.

(** The records of a run do not depend on the log the run starts with. *)
Lemma executionRecords_ignores_calls (cells : list NotebookCell)
    (w : World Session) (log : list HostCall) :
  executionRecords' cells {| session := session w; calls := log |}
  = executionRecords' cells w.
Proof.
  revert w log. induction cells as [|c cells IH]; intros w log; [done|].
  cbn [executionRecords]. rewrite recordOf_ignores_calls.
  destruct (recordOf' c w) as [r|e] eqn:Hr; [|done]. f_equal.
  rewrite (doExecution_resolved c w r Hr).
  rewrite (doExecution_resolved c {| session := session w; calls := log |} r)
    by (by rewrite recordOf_ignores_calls).
  cbn [fst session]. rewrite <- (IH _ []). symmetry. by rewrite <- (IH _ []).
Qed.

End PipelineFacts.

(** * The pipeline on the example evaluator *)

Lemma success_outputs_witness :
  let cell := demoCell 0 "(+ 1 2)" in
  (evaluation demoDateNow demoEvaluate cell (session demoWorld)).1 = Ok (js "3") /\
  demoPretty (js "3") = Ok (js "3") /\
  doExecution demoDateNow demoEvaluate demoPretty cell demoWorld
  = ({| session := 1005%nat;
        calls :=
          [ CreateNotebookCellExecution cell;
            ExecutionStart cell 1000;
            ReplaceOutput cell
              [[ TextItem (js "text/plain") (js "3");
                 TextItem (js "text/markdown") (js "```clojure\n3\n```");
                 TextItem (js "x-application/edn") (js "3") ]];
            ExecutionEnd cell true 1005 ] |}, Ok tt).
Proof.
  intros cell. split; [reflexivity|]. split; [reflexivity|].
  exact (proj1 (success_outputs demoDateNow demoEvaluate demoPretty
                  cell demoWorld (js "3") (js "3") eq_refl eq_refl)).
Defined.

(** The two output scenarios of the specification. *)
Example successItems_number :
  successItems (js "3") (js "3")
  = [ TextItem (js "text/plain") (js "3");
      TextItem (js "text/markdown") (js "```clojure\n3\n```");
      TextItem (js "x-application/edn") (js "3") ].
Proof. reflexivity. Qed.

Example successItems_html (pretty : jsstring) :
  let response := DQUOTE :: js "<html><body>hi</body></html>" ++ [DQUOTE] in
  successItems response pretty
  = [ TextItem (js "text/plain") response;
      TextItem (js "text/markdown") (js "```clojure\n" ++ pretty ++ js "\n```");
      TextItem (js "x-application/edn") response;
      TextItem (js "text/html") (js "<html><body>hi</body></html>") ].
Proof. reflexivity. Qed.

Lemma error_descriptor_witness :
  let cell := demoCell 0 "(throw)" in
  attempt demoDateNow demoEvaluate demoPretty cell (session demoWorld)
  = Throw (JsText (js "boom")) /\
  doExecution demoDateNow demoEvaluate demoPretty cell demoWorld
  = ({| session := 1005%nat;
        calls :=
          [ CreateNotebookCellExecution cell;
            ExecutionStart cell 1000;
            ReplaceOutput cell
              [[ErrorItem (js "error") (Some (DQUOTE :: js "boom" ++ [DQUOTE]))]];
            ExecutionEnd cell false 1005 ] |}, Ok tt).
Proof.
  intros cell. split; [reflexivity|].
  exact (proj1 (error_descriptor demoDateNow demoEvaluate demoPretty
                  cell demoWorld (JsText (js "boom")) eq_refl)
           (ErrorItem (js "error") (Some (DQUOTE :: js "boom" ++ [DQUOTE])))
           eq_refl).
Defined.

(** C8 as stated fails.  The evaluator throws an [Error] whose message is
    empty: the item carries the JSON rendering of the error object and not
    the message. *)
Lemma error_descriptor_counterexample :
  let err := JsErrorObject (js "Error") [] [] in
  let cell := demoCell 0 "(error)" in
  attempt demoDateNow demoEvaluate demoPretty cell (session demoWorld)
  = Throw err /\
  instanceofError err = true /\
  doExecution demoDateNow demoEvaluate demoPretty cell demoWorld
  = ({| session := 1005%nat;
        calls :=
          [ CreateNotebookCellExecution cell;
            ExecutionStart cell 1000;
            ReplaceOutput cell [[ErrorItem (js "Error") (Some (js "{}"))]];
            ExecutionEnd cell false 1005 ] |}, Ok tt) /\
  ErrorItem (js "Error") (Some (js "{}")) <> ErrorItem (js "Error") (Some []).
Proof. repeat split; try reflexivity. discriminate. Qed.

(** The fallback scenario of the specification: a thrown object that is
    no [Error]. *)
Example errorItem_object :
  errorItem (JsObject [(js "code", JsNumber {| intValue := 42; intSafe := eq_refl |})])
  = Ok (ErrorItem (js "error")
          (Some (js "{\n    " ++ [DQUOTE] ++ js "code" ++ [DQUOTE] ++ js ": 42\n}"))).
Proof. reflexivity. Qed.

(** An [Error] without a message whose [name] was assigned on the
    instance: the rendering holds the name. *)
Example errorItem_named_error :
  errorItem (JsErrorObject (js "MyErr") [] [(js "name", JsText (js "MyErr"))])
  = Ok (ErrorItem (js "MyErr")
          (Some (js "{\n    " ++ [DQUOTE] ++ js "name" ++ [DQUOTE] ++ js ": "
                 ++ [DQUOTE] ++ js "MyErr" ++ [DQUOTE] ++ js "\n}"))).
Proof. reflexivity. Qed.

(** An [Error] with a message is reported by its message, whatever its
    properties hold. *)
Example errorItem_error_with_message :
  errorItem (JsErrorObject (js "TypeError") (js "x is not a function")
               [(js "cause", JsCircular)])
  = Ok (ErrorItem (js "TypeError") (Some (js "x is not a function"))).
Proof. reflexivity. Qed.

(** The values the [catch] block cannot report. *)
Example errorItem_bigint : errorItem (JsBigInt 1) = Throw TypeError.
Proof. reflexivity. Qed.

Example errorItem_circular :
  errorItem (JsObject [(js "self", JsCircular)]) = Throw TypeError.
Proof. reflexivity. Qed.

(** C7.  The claim fails on the code.  The evaluator rejects the first of
    two cells with a BigInt: [JSON.stringify] throws a [TypeError] in the
    [catch] block, the execution of the cell is rejected after
    [createNotebookCellExecution] and [start], without [replaceOutput] and
    [end], and the run with it; the second cell, which evaluates to [3]
    when it is run alone, is never executed and gets no record. *)
Theorem run_aborted_by_catch_block :
  let c1 := demoCell 0 "(bigint)" in
  let c2 := demoCell 1 "(+ 1 2)" in
  attempt demoDateNow demoEvaluate demoPretty c1 (session demoWorld)
  = Throw (JsBigInt 1) /\
  executeAll demoDateNow demoEvaluate demoPretty [c1; c2] demoWorld
  = ({| session := 1005%nat;
        calls := [ CreateNotebookCellExecution c1; ExecutionStart c1 1000 ] |},
     Throw TypeError) /\
  executionRecords demoDateNow demoEvaluate demoPretty [c1; c2] demoWorld = [] /\
  map (fun r => (recordCell r, succeeded r))
    (executionRecords demoDateNow demoEvaluate demoPretty [c2] demoWorld)
  = [(c2, true)].
Proof. repeat split; reflexivity. Qed.

Lemma executeAll_sequential_witness :
  let cells :=
    [demoCell 0 "(+ 1 2)"; demoCell 1 "(throw)"; demoCell 2 "(+ 3 4)"] in
  let records :=
    executionRecords demoDateNow demoEvaluate demoPretty cells demoWorld in
  (executeAll demoDateNow demoEvaluate demoPretty cells demoWorld).2 = Ok tt /\
  calls (executeAll demoDateNow demoEvaluate demoPretty cells demoWorld).1
  = concat (map callsOfRecord records) /\
  map recordCell records = cells /\
  chronological 1000 records.
Proof.
  intros cells records.
  destruct (executeAll_sequential demoDateNow demoEvaluate demoPretty cells
              demoWorld eq_refl) as (Hcalls & Hcells & Htime).
  split; [reflexivity|]. split; [exact Hcalls|]. split; [exact Hcells|].
  apply (Htime (fun s => Z.of_nat s)). split.
  - intros s. unfold demoDateNow. cbn [fst snd]. lia.
  - intros code s. unfold demoEvaluate. cbn [fst snd]. lia.
Defined.

(** C9 as stated fails.  The wall clock is set back by two milliseconds
    between the end of the first of two cells and the start of the second:
    the four readings are 1000, 1005, 1003 and 1008.  Both cells are
    executed in order, and the start time of the second is earlier than
    the end time of the first. *)
Lemma executeAll_sequential_counterexample :
  let c1 := demoCell 0 "(+ 1 2)" in
  let c2 := demoCell 1 "(+ 3 4)" in
  let w := {| session := [1000; 1005; 1003; 1008]; calls := [] |} in
  let records := executionRecords listedDateNow listedEvaluate demoPretty [c1; c2] w in
  (executeAll listedDateNow listedEvaluate demoPretty [c1; c2] w).2 = Ok tt /\
  map (fun r => (recordCell r, startedAt r, endedAt r)) records
  = [(c1, 1000, 1005); (c2, 1003, 1008)] /\
  ~ chronological 1000 records.
Proof.
  repeat split; try reflexivity.
  cbn. intros (_ & _ & H & _). lia.
Qed.

(** The run of three cells: one record each, in order, and each starts
    when the one before it has ended. *)
Example executeAll_three :
  let cells := [demoCell 0 "(+ 1 2)"; demoCell 1 "(throw)"; demoCell 2 "(+ 3 4)"] in
  map (fun r => (cellIndex (recordCell r), startedAt r, endedAt r, succeeded r))
    (executionRecords demoDateNow demoEvaluate demoPretty cells demoWorld)
  = [ (0%nat, 1000, 1005, true); (1%nat, 1005, 1010, false);
      (2%nat, 1010, 1015, true) ].
Proof. reflexivity. Qed.

(** * Further properties of the splitter and the joiner *)

Section SplitterMore.

Variable rangesForTopLevelForms : jsstring -> list (Z * Z).
Variable content : jsstring.

Lemma regions_from (m : list Z) (a : Z) :
  0 <= a ->
  monotoneFrom a m = true ->
  List.last m a <= jslength content ->
  concat (map (regionOf content) (pairsFrom a m))
  = substring content a (List.last m a).
Proof.
  revert a. induction m as [|b m IH]; intros a Ha Hmono Hlast.
  - cbn. by rewrite substring_empty.
  - cbn [monotoneFrom] in Hmono. apply andb_true_iff in Hmono as [Hab Hmono].
    apply Z.leb_le in Hab. rewrite last_cons_default in Hlast |- *.
    pose proof (monotoneFrom_le_last _ _ Hmono) as Hb.
    cbn [pairsFrom map concat]. rewrite IH by (done || lia).
    unfold regionOf. cbn [fst snd]. apply substring_app; lia.
Qed.

(** X1.  The ranges cut the text into consecutive pieces: when the offsets of
    the locator are in order, the texts of all ranges, separators and forms
    alike, concatenate to the text. *)
Theorem ranges_partition :
  validSpans content (rangesForTopLevelForms content) = true ->
  concat (map (regionOf content) (allRanges rangesForTopLevelForms content))
  = content.
Proof.
  intros Hvalid. rewrite allRanges_pairs. unfold validSpans, topLevelRanges in *.
  rewrite regions_from; try done.
  - by rewrite last_last, substring_full.
  - rewrite last_last. lia.
Qed.

Lemma separator_not_code (r : Z * Z) :
  isCode (cellOfRange content r 0) = false.
Proof. unfold isCode. by rewrite (kind_cellOfRange content r 0). Qed.

Lemma codeCells_from (sp : list (Z * Z)) (a z : Z) :
  map value
    (List.filter isCode
       (List.filter hasValue (cellsFrom content true (pairsFrom a (flat sp ++ [z])))))
  = List.filter nonEmpty (map (regionOf content) sp).
Proof.
  revert a. induction sp as [|[s e] sp IH]; intros a.
  - cbn [flat flat_map app pairsFrom cellsFrom List.filter map].
    destruct (hasValue _); [|done]. cbn [List.filter].
    by rewrite separator_not_code.
  - cbn [flat flat_map app fst snd pairsFrom cellsFrom negb List.filter map].
    fold (flat sp). rewrite codeCell. unfold regionOf at 1. cbn [fst snd].
    assert (Hrest := IH e). destruct (hasValue (cellOfRange content (a, s) 0)).
    + cbn [List.filter]. rewrite separator_not_code.
      unfold hasValue at 1, nonEmpty at 1. cbn [value].
      destruct (negb _); [|done]. cbn [List.filter isCode kind map value].
      by f_equal.
    + unfold hasValue at 1, nonEmpty at 1. cbn [value].
      destruct (negb _); [|done]. cbn [List.filter isCode kind map value].
      by f_equal.
Qed.

(** X2.  The Code cells of the result are the texts of the spans of the
    locator, in order, without the empty ones; this needs nothing of the
    spans. *)
Theorem code_cells_are_spans :
  map value (List.filter isCode (parseClojure rangesForTopLevelForms content))
  = List.filter nonEmpty
      (map (regionOf content) (rangesForTopLevelForms content)).
Proof.
  unfold parseClojure. rewrite mappedRanges_cells, allRanges_pairs.
  apply codeCells_from.
Qed.

End SplitterMore.

Section CellInvariants.

Variable rangesForTopLevelForms : jsstring -> list (Z * Z).
Variable content : jsstring.

Lemma hasValue_true (c : NotebookCellData) : hasValue c = true -> value c <> [].
Proof. unfold hasValue. by destruct (value c). Qed.

Lemma cellOfRange_invariant (r : Z * Z) (isSeparator : bool) :
  let c := cellOfRange content r (if isSeparator then 0 else 1) in
  hasValue c = true -> cellInvariant c.
Proof.
  intros c Hv. split; [by apply hasValue_true|]. subst c.
  destruct r as [a b], isSeparator; [|by rewrite codeCell].
  destruct (Z.eqb_spec a b) as [->|Hab]; [by rewrite emptySeparatorCell|].
  destruct (isCommentBlock (substring content a b)) eqn:Hblock;
    [|by rewrite plainCell].
  rewrite commentCell by done. cbn [kind languageId metadata].
  split; [done|]. intros m [= <-]. cbn [asMarkdown endingWhitespace].
  split; [done|]. unfold jslength. lia.
Qed.

(** X3.  Every cell the splitter returns has content; a Code cell has the
    language [clojure] and no [metadata]; a Markup cell has the language
    [markdown], and when it has [metadata], [asMarkdown] is set and
    [endingWhitespace] is not negative. *)
Theorem parseClojure_invariant :
  Forall cellInvariant (parseClojure rangesForTopLevelForms content).
Proof.
  unfold parseClojure. rewrite mappedRanges_cells.
  generalize (allRanges rangesForTopLevelForms content) as l, true as isSep.
  induction l as [|r l IH]; intros isSep; cbn [cellsFrom List.filter];
    [constructor|].
  destruct (hasValue _) eqn:Hv; [|apply IH].
  constructor; [by apply cellOfRange_invariant | apply IH].
Qed.

End CellInvariants.

Section EmptyText.

Lemma substring_nil (a b : Z) : substring [] a b = [].
Proof. unfold substring. by rewrite drop_nil, take_nil. Qed.

Lemma value_cellOfRange_nil (r : Z * Z) (i : nat) :
  value (cellOfRange [] r i) = [].
Proof.
  unfold cellOfRange. destruct r as [a b]. rewrite substring_nil.
  destruct (i mod 2 =? 0)%nat; [|done]. by destruct (a =? b).
Qed.

Lemma filter_hasValue_nil (cs : list NotebookCellData) :
  Forall (fun c => value c = []) cs -> List.filter hasValue cs = [].
Proof.
  induction 1 as [|c cs Hc _ IH]; [done|].
  cbn [List.filter]. unfold hasValue at 1. by rewrite Hc.
Qed.

(** X4.  The empty text has no cells, whatever the locator answers, and the
    document without cells is written as the empty text. *)
Theorem empty_text_empty_document
    (rangesForTopLevelForms : jsstring -> list (Z * Z)) :
  parseClojure rangesForTopLevelForms [] = [] /\
  writeCellsToClojure (parseClojure rangesForTopLevelForms []) = Ok [].
Proof.
  assert (H : parseClojure rangesForTopLevelForms [] = []).
  { unfold parseClojure. rewrite mappedRanges_cells. apply filter_hasValue_nil.
    generalize (allRanges rangesForTopLevelForms []) as l, true as isSep.
    induction l as [|r l IH]; intros isSep; cbn [cellsFrom]; constructor;
      [apply value_cellOfRange_nil | apply IH]. }
  by rewrite H.
Qed.

End EmptyText.

(** * The joiner on any document *)

Section JoinerMore.

(** X7.  Joining is compositional: the text of two documents put together is
    the text of the first followed by the text of the second, and the
    first exception met is the one thrown. *)
Theorem writeCells_app (xs ys : list NotebookCellData) :
  writeCellsToClojure (xs ++ ys)
  = (a ← writeCellsToClojure xs; b ← writeCellsToClojure ys; Ok (a ++ b)).
Proof.
  induction xs as [|x xs IH]; cbn [app].
  - change (writeCellsToClojure []) with (@Ok JsException jsstring []).
    cbn [mbind Completion_bind bindR]. by destruct (writeCellsToClojure ys).
  - rewrite !writeCells_cons, IH. destruct (textOfCell x); [|done].
    cbn [mbind Completion_bind bindR].
    destruct (writeCellsToClojure xs); [|done]. cbn [mbind Completion_bind bindR].
    destruct (writeCellsToClojure ys); [|done]. cbn [mbind Completion_bind bindR].
    by rewrite app_assoc.
Qed.

Lemma decode_after_encode (v : jsstring) :
  replaceAll (replaceAll v (js "\n") (js "\n;; ")) (js "\n;; ") (js "\n") = v.
Proof.
  induction v as [|c v IH]; [done|].
  destruct (N.eqb_spec c LF) as [->|Hc].
  - change (LF :: v) with (js "\n" ++ v).
    rewrite (replaceAll_match (js "\n")), replaceAll_match by done.
    by rewrite IH.
  - rewrite !replaceAll_nomatch by (by apply startsWith_cons_ne).
    by rewrite IH.
Qed.

(** X13.  Whatever the content of a Markup cell, putting the marker after each
    of its line feeds and taking it away again gives the content back. *)
Theorem decode_encode (v : jsstring) :
  replaceAll (replaceAll v (js "\n") (js "\n;; ")) (js "\n;; ") (js "\n") = v.
Proof. apply decode_after_encode. Qed.

Lemma encode_cons_LF (v : jsstring) :
  replaceAll (LF :: v) (js "\n") (js "\n;; ")
  = js "\n;; " ++ replaceAll v (js "\n") (js "\n;; ").
Proof. change (LF :: v) with (js "\n" ++ v). by rewrite replaceAll_match. Qed.

Lemma last_encode (v : jsstring) (c : N) :
  c <> LF -> last v = Some c ->
  last (replaceAll v (js "\n") (js "\n;; ")) = Some c.
Proof.
  intros Hc. induction v as [|d v IH]; [done|]. intros Hlast.
  destruct v as [|e v].
  - injection Hlast as ->. by rewrite replaceAll_nomatch by (by apply startsWith_cons_ne).
  - rewrite last_cons in Hlast. destruct (last (e :: v)) as [l|] eqn:Hl;
      [|by apply last_None in Hl].
    specialize (IH Hlast).
    destruct (N.eqb_spec d LF) as [->|Hd].
    + rewrite encode_cons_LF, last_app, IH. done.
    + rewrite replaceAll_nomatch by (by apply startsWith_cons_ne).
      by rewrite last_cons, IH.
Qed.

Lemma whiteSpace_replicate_LF (k : nat) :
  forallb isWhiteSpace (replicate k LF) = true.
Proof. induction k as [|k IH]; [done|]. cbn [replicate forallb]. by rewrite IH. Qed.

Lemma commentDerivedCell_resplit (v : jsstring) (n : Z) (c : N) :
  0 <= n ->
  startsWith v (js "\n") = true ->
  last v = Some c ->
  isWhiteSpace c = false ->
  exists t,
    textOfCell (commentDerivedCell v n) = Ok t /\
    isCommentBlock t = true /\
    cellOfRange t (0, jslength t) 0 = commentDerivedCell v n.
Proof.
  intros Hn Hhead Hlast Hc.
  apply startsWith_app in Hhead as [v' ->].
  change (js "\n" ++ v') with (LF :: v') in *.
  set (e := replaceAll v' (js "\n") (js "\n;; ")).
  exists (js "\n\n;; " ++ e ++ replicate (Z.to_nat n) LF).
  assert (Htext : textOfCell (commentDerivedCell (LF :: v') n)
                  = Ok (js "\n\n;; " ++ e ++ replicate (Z.to_nat n) LF)).
  { unfold textOfCell, commentDerivedCell, repeatLF.
    cbn [kind metadata asMarkdown startingWhitespace endingWhitespace value].
    destruct (Z.ltb_spec n 0); [lia|]. cbn [mbind Completion_bind bindR].
    by rewrite encode_cons_LF. }
  split; [done|]. split; [apply startsWith_prefix|].
  set (t := js "\n\n;; " ++ e ++ replicate (Z.to_nat n) LF).
  assert (Hlen : 0 <> jslength t) by (unfold jslength; subst t; cbn; lia).
  pose proof (substring_full t) as Hfull.
  assert (Hblock : isCommentBlock (substring t 0 (jslength t)) = true).
  { rewrite Hfull. apply startsWith_prefix. }
  rewrite commentCell, Hfull by done. unfold commentDerivedCell.
  assert (HcLF : c <> LF) by (intros ->; done).
  assert (Hkeep : forall d, last (js "\n;; " ++ e) = Some d -> isWhiteSpace d = false).
  { intros d. subst e. rewrite <- encode_cons_LF.
    rewrite (last_encode _ c) by done. by intros [= <-]. }
  assert (Htrim1 : trimEnd ((js "\n;; " ++ e) ++ replicate (Z.to_nat n) LF)
                   = js "\n;; " ++ e).
  { apply trimEnd_unique; [apply whiteSpace_replicate_LF | done]. }
  f_equal.
  - subst t. change (js "\n\n;; " ++ ?x) with (LF :: (js "\n;; " ++ x)).
    rewrite substring_from_cons, app_assoc, Htrim1.
    subst e. rewrite <- encode_cons_LF. apply decode_after_encode.
  - do 2 f_equal. subst t.
    change (js "\n\n;; " ++ ?x) with (LF :: (js "\n;; " ++ x)).
    rewrite trailingWhiteSpace_cons by (rewrite app_assoc, Htrim1; done).
    unfold trailingWhiteSpace. rewrite app_assoc, Htrim1, drop_app_length.
    unfold jslength. rewrite length_replicate. lia.
Qed.

(** X14.  Join, then split.  A comment-derived cell whose content starts with a
    line feed and does not end in white space is written by the joiner as a
    comment block, and the splitter makes the same cell of that block. *)
Theorem join_then_split_cell (v : jsstring) (n : Z) (c : N) :
  0 <= n ->
  startsWith v (js "\n") = true ->
  last v = Some c ->
  isWhiteSpace c = false ->
  exists t,
    textOfCell (commentDerivedCell v n) = Ok t /\
    isCommentBlock t = true /\
    cellOfRange t (0, jslength t) 0 = commentDerivedCell v n.
Proof. apply commentDerivedCell_resplit. Qed.

End JoinerMore.

(** * The round trip when Markup cells carry [metadata] *)

Section RoundTripWithMetadata.

Variable rangesForTopLevelForms : jsstring -> list (Z * Z).
Variable content : jsstring.

Lemma withMetadata_text (a b : Z) (isSeparator : bool) :
  0 <= a <= b -> b <= jslength content ->
  (if isSeparator
   then (a =? b) || plainOrWellFormed (substring content a b)
   else true) = true ->
  let c := cellOfRange content (a, b) (if isSeparator then 0 else 1) in
  if hasValue c then textOfCell (withMetadata c) = Ok (substring content a b)
  else substring content a b = [].
Proof.
  intros Hab Hb Hsep c. subst c. destruct isSeparator.
  - destruct (Z.eqb_spec a b) as [->|Hne].
    + rewrite emptySeparatorCell. cbn. apply substring_empty.
    + cbn [orb] in Hsep. unfold plainOrWellFormed in Hsep.
      destruct (isCommentBlock (substring content a b)) eqn:Hblock.
      * cbn [negb orb] in Hsep.
        pose proof (cell_text content a b true Hab Hb) as Hcell.
        cbv zeta in Hcell. rewrite (proj2 (Z.eqb_neq a b) Hne) in Hcell.
        specialize (Hcell Hsep).
        replace (withMetadata (cellOfRange content (a, b) 0))
          with (cellOfRange content (a, b) 0); [done|].
        by rewrite commentCell.
      * rewrite plainCell by done. unfold hasValue, withMetadata, textOfCell.
        cbn [value kind metadata asMarkdown].
        by destruct (substring content a b).
  - rewrite codeCell. unfold hasValue, withMetadata, textOfCell.
    cbn [value kind]. by destruct (substring content a b).
Qed.

Lemma join_withMetadata (m : list Z) (a : Z) (isSeparator : bool) :
  0 <= a ->
  monotoneFrom a m = true ->
  List.last m a <= jslength content ->
  separatorsSatisfy plainOrWellFormed content isSeparator (pairsFrom a m) = true ->
  writeCellsToClojure
    (map withMetadata
       (List.filter hasValue (cellsFrom content isSeparator (pairsFrom a m))))
  = Ok (substring content a (List.last m a)).
Proof.
  revert a isSeparator.
  induction m as [|b m IH]; intros a isSeparator Ha Hmono Hlast Hsep.
  - cbn. by rewrite substring_empty.
  - cbn [monotoneFrom] in Hmono. apply andb_true_iff in Hmono as [Hab Hmono].
    apply Z.leb_le in Hab.
    cbn [pairsFrom separatorsSatisfy fst snd] in Hsep.
    apply andb_true_iff in Hsep as [Hhere Hsep].
    rewrite last_cons_default in Hlast |- *.
    pose proof (monotoneFrom_le_last _ _ Hmono) as Hb.
    specialize (IH b (negb isSeparator) ltac:(lia) Hmono Hlast Hsep).
    cbn [pairsFrom cellsFrom List.filter].
    pose proof (withMetadata_text a b isSeparator ltac:(lia) ltac:(lia) Hhere)
      as Hcell.
    cbv zeta in Hcell.
    rewrite <- (substring_app content a b (List.last m b)) by lia.
    destruct (hasValue _).
    + cbn [map]. rewrite writeCells_cons, Hcell, IH. done.
    + by rewrite Hcell, IH.
Qed.

(** X10.  When every Markup cell without [metadata] is given an empty
    [metadata] object before the joiner sees it, the round trip holds for
    every text whose comment blocks are well formed: separator regions that
    are no comment blocks come back as they are. *)
Theorem roundtrip_with_metadata :
  validSpans content (rangesForTopLevelForms content) = true ->
  separatorsSatisfy plainOrWellFormed content true
    (allRanges rangesForTopLevelForms content) = true ->
  writeCellsToClojure
    (map withMetadata (parseClojure rangesForTopLevelForms content))
  = Ok content.
Proof.
  intros Hvalid Hsep. unfold parseClojure.
  rewrite mappedRanges_cells, allRanges_pairs in *.
  unfold validSpans in Hvalid. unfold topLevelRanges in *.
  rewrite join_withMetadata; try done.
  - by rewrite last_last, substring_full.
  - rewrite last_last. lia.
Qed.

End RoundTripWithMetadata.

(** * Further properties of the outputs *)

Section OutputsMore.

Lemma dropTrailingQuote_shape (s : jsstring) :
  (dropTrailingQuote s = s /\ last s <> Some DQUOTE) \/
  s = dropTrailingQuote s ++ [DQUOTE].
Proof.
  unfold dropTrailingQuote. destruct (last s) as [c|] eqn:Hlast; [|by left].
  destruct (N.eqb_spec c DQUOTE) as [->|Hc].
  - right. apply last_Some in Hlast as [s' ->].
    rewrite length_app. cbn [length].
    replace (Nat.pred (length s' + 1)) with (length s') by lia.
    by rewrite take_app_length.
  - left. split; [done|]. congruence.
Qed.

(** X16.  The quote stripping takes away at most one double quote at each end
    and nothing else: the response is the stripped text with at most a
    quote before it and at most a quote after it, the quote before it being
    there exactly when the response starts with one. *)
Theorem stripQuotes_shape (response : jsstring) :
  exists l r,
    response = l ++ stripQuotes response ++ r /\
    (l = [] \/ l = [DQUOTE]) /\ (r = [] \/ r = [DQUOTE]) /\
    (l = [DQUOTE] <-> startsWith response [DQUOTE] = true).
Proof.
  assert (Hq : forall rest, startsWith (DQUOTE :: rest) [DQUOTE] = true).
  { intros rest. apply (startsWith_prefix [DQUOTE] rest). }
  destruct response as [|c rest].
  - exists [], []. repeat split; auto; discriminate.
  - unfold stripQuotes. destruct (N.eqb_spec c DQUOTE) as [->|Hc].
    + destruct (dropTrailingQuote_shape rest) as [[Heq _]|Heq].
      * exists [DQUOTE], []. rewrite Heq, app_nil_r. repeat split; auto.
      * exists [DQUOTE], [DQUOTE]. cbn [app]. rewrite <- Heq.
        repeat split; auto.
    + assert (Hstart : startsWith (c :: rest) [DQUOTE] = false).
      { apply startsWith_cons_ne. done. }
      destruct (dropTrailingQuote_shape (c :: rest)) as [[Heq _]|Heq].
      * exists [], []. rewrite Heq, app_nil_r.
        repeat split; auto; try discriminate. by rewrite Hstart.
      * exists [], [DQUOTE]. cbn [app]. rewrite <- Heq.
        repeat split; auto; try discriminate. by rewrite Hstart.
Qed.

Lemma startsWith_dropTrailingQuote (s p : jsstring) (c : N) :
  last p = Some c -> c <> DQUOTE ->
  startsWith (dropTrailingQuote s) p = startsWith s p.
Proof.
  intros Hlast Hc. destruct (dropTrailingQuote_shape s) as [[-> _]|Heq]; [done|].
  set (d := dropTrailingQuote s) in *. rewrite Heq.
  destruct (startsWith d p) eqn:Hd.
  - apply startsWith_app in Hd as [rest ->]. symmetry.
    rewrite <- app_assoc. apply startsWith_prefix.
  - symmetry. apply not_true_is_false. intros Hp.
    apply startsWith_app in Hp as [rest Hrest].
    destruct (decide (rest = [])) as [->|Hne].
    + rewrite app_nil_r in Hrest. rewrite <- Hrest, last_snoc in Hlast.
      congruence.
    + destruct (exists_last Hne) as (rest' & q & ->).
      rewrite app_assoc in Hrest. apply app_inj_tail in Hrest as [-> _].
      by rewrite startsWith_prefix in Hd.
Qed.

(** X17.  The HTML item is there exactly when the response starts with
    [<html], or with a double quote and then [<html]. *)
Theorem html_item_iff (response pretty : jsstring) :
  In (TextItem (js "text/html") (stripQuotes response))
     (successItems response pretty)
  <-> startsWith response (js "<html") = true
      \/ startsWith response (DQUOTE :: js "<html") = true.
Proof.
  assert (Hstrip : startsWith (stripQuotes response) (js "<html")
                   = startsWith response (js "<html")
                     || startsWith response (DQUOTE :: js "<html")).
  { destruct response as [|c rest]; [done|]. unfold stripQuotes.
    destruct (N.eqb_spec c DQUOTE) as [->|Hc].
    - rewrite (startsWith_dropTrailingQuote _ _ 108%N) by done.
      cbn [startsWith]. rewrite N.eqb_refl. cbn. done.
    - rewrite (startsWith_dropTrailingQuote _ _ 108%N) by done.
      rewrite (startsWith_cons_ne c DQUOTE) by done. by rewrite orb_false_r. }
  rewrite <- orb_true_iff, <- Hstrip. unfold successItems.
  destruct (startsWith (stripQuotes response) (js "<html")).
  - split; [done|]. intros _. apply in_or_app. right. by left.
  - split; [|done]. cbn [In NotebookCellOutputItem_text default].
    intros [H|[H|[H|[]]]]; discriminate.
Qed.



End OutputsMore.

(** * Further properties of a run *)

Section RunMore.

Context {Session : Type}.
Variable dateNow : Session -> Z * Session.
Variable evaluateCode :
  jsstring -> Session -> Completion JsValue jsstring * Session.
Variable prettyPrint : jsstring -> Completion JsValue jsstring.

Local Abbreviation evaluation' := (evaluation dateNow evaluateCode).
Local Abbreviation attempt' := (attempt dateNow evaluateCode prettyPrint).
Local Abbreviation doExecution' := (doExecution dateNow evaluateCode prettyPrint).
Local Abbreviation executeAll' := (executeAll dateNow evaluateCode prettyPrint).
Local Abbreviation recordOf' := (recordOf dateNow evaluateCode prettyPrint).
Local Abbreviation executionRecords' :=
  (executionRecords dateNow evaluateCode prettyPrint).

(** X19.  The log of every run, resolved or rejected, is made of the four
    calls of one record for each cell that was reported, in the order of
    the cells, and every such record holds exactly one output: for a
    success the three text items (plain, markdown, EDN, the first and the
    third with the same text) and at most an HTML item after them, for a
    failure one error item with a name.  A resolved run has a record for
    every cell.  A rejected run is rejected with a [TypeError]; the cell
    after the last one reported is created and started, and the log ends
    there. *)
Theorem records_shape (cells : list NotebookCell) (w : World Session) :
  let records := executionRecords' cells w in
  Forall recordShape records /\
  map recordCell records = take (length records) cells /\
  match (executeAll' cells w).2 with
  | Ok _ =>
      length records = length cells /\
      calls (executeAll' cells w).1
      = calls w ++ concat (map callsOfRecord records)
  | Throw e =>
      e = TypeError /\
      exists cell t,
        cells !! length records = Some cell /\
        calls (executeAll' cells w).1
        = calls w ++ concat (map callsOfRecord records)
          ++ [CreateNotebookCellExecution cell; ExecutionStart cell t]
  end.
Proof.
  intros records. split; [apply executionRecords_shape|].
  destruct (executeAll' cells w).2 as [[]|e] eqn:Hrun.
  - destruct (executeAll_resolved _ _ _ cells w Hrun) as [Hcells Hcalls].
    pose proof (executionRecords_length _ _ _ cells w Hrun) as Hlen.
    fold records in Hcells, Hcalls, Hlen.
    split; [|done]. by rewrite Hlen, firstn_all.
  - destruct (executeAll_rejected _ _ _ cells w e Hrun) as (He & Hcells & Hlog).
    done.
Qed.

(** X21.  A failure of the pretty printer is handled as a failure of the
    evaluator with the same value is.  When the [catch] block builds its
    item, both executions are resolved with that single error item and
    ended without success; when it throws, both are rejected after their
    creation and their start. *)
Theorem pretty_failure_like_evaluation_failure
    (cell1 cell2 : NotebookCell) (w1 w2 : World Session)
    (response : jsstring) (err : JsValue) :
  (evaluation' cell1 (session w1)).1 = Throw err ->
  (evaluation' cell2 (session w2)).1 = Ok response ->
  prettyPrint response = Throw err ->
  let reported (cell : NotebookCell) (w : World Session) item :=
    ({| session := (dateNow (evaluation' cell (session w)).2).2;
        calls := calls w ++
          [ CreateNotebookCellExecution cell;
            ExecutionStart cell (dateNow (session w)).1;
            ReplaceOutput cell [[item]];
            ExecutionEnd cell false (dateNow (evaluation' cell (session w)).2).1 ]
     |}, Ok tt) in
  let rejected (cell : NotebookCell) (w : World Session) :=
    ({| session := (evaluation' cell (session w)).2;
        calls := calls w ++
          [ CreateNotebookCellExecution cell;
            ExecutionStart cell (dateNow (session w)).1 ] |},
     @Throw JsException unit TypeError) in
  match errorItem err with
  | Ok item =>
      doExecution' cell1 w1 = reported cell1 w1 item /\
      doExecution' cell2 w2 = reported cell2 w2 item
  | Throw _ =>
      doExecution' cell1 w1 = rejected cell1 w1 /\
      doExecution' cell2 w2 = rejected cell2 w2
  end.
Proof.
  intros H1 H2 Hp reported rejected.
  assert (A1 : attempt' cell1 (session w1) = Throw err).
  { unfold attempt, render. by rewrite H1. }
  assert (A2 : attempt' cell2 (session w2) = Throw err).
  { unfold attempt, render. rewrite H2. cbn [mbind Completion_bind bindR].
    by rewrite Hp. }
  destruct (errorItem err) as [item|e] eqn:Hitem.
  - split; by apply doExecution_failure with err.
  - split; by apply doExecution_catch_throws with err e.
Qed.

(** X24.  A failure that the [catch] block reports does not stop the run.
    When the cells [pre] are resolved and the [try] block of the next cell
    throws a value for which the item is built, that cell is resolved with
    a record of failure and the run goes on with the cells [post] from the
    environment the cell leaves; their records do not depend on the log,
    where the failure shows. *)
Theorem reported_failure_run_goes_on (pre post : list NotebookCell)
    (cell : NotebookCell) (w : World Session) (err : JsValue)
    (item : NotebookCellOutputItem) :
  (executeAll' pre w).2 = Ok tt ->
  attempt' cell (session (executeAll' pre w).1) = Throw err ->
  errorItem err = Ok item ->
  let before := (executeAll' pre w).1 in
  let after := (doExecution' cell before).1 in
  let failed :=
    {| recordCell := cell;
       startedAt := (dateNow (session before)).1;
       outputs := [[item]];
       succeeded := false;
       endedAt := (dateNow (evaluation' cell (session before)).2).1 |} in
  doExecution' cell before
  = ({| session := (dateNow (evaluation' cell (session before)).2).2;
        calls := calls before ++ callsOfRecord failed |}, Ok tt) /\
  executeAll' (pre ++ cell :: post) w = executeAll' post after /\
  executionRecords' (pre ++ cell :: post) w
  = executionRecords' pre w ++ failed :: executionRecords' post after /\
  executionRecords' post after
  = executionRecords' post {| session := session after; calls := [] |}.
Proof.
  intros Hpre Hfail Hitem before after failed.
  assert (Hrecord : recordOf' cell before = Ok failed).
  { unfold recordOf. fold before in Hfail. rewrite Hfail. cbn [outcome].
    rewrite Hitem. done. }
  pose proof (doExecution_resolved _ _ _ cell before failed Hrecord) as Hcell.
  split; [done|]. split; [|split].
  - rewrite executeAll_app_resolved by done. fold before.
    rewrite executeAll_cons_resolved by (by rewrite Hcell). done.
  - rewrite executionRecords_app_resolved by done. fold before.
    cbn [executionRecords]. by rewrite Hrecord.
  - symmetry. apply executionRecords_ignores_calls.
Qed.

(** X25.  A failure that the [catch] block cannot report stops the run.
    When the cells [pre] are resolved and the [try] block of the next cell
    throws a value on which the [catch] block throws, the run is rejected
    with a [TypeError]: that cell is created and started, the log ends
    there, and the records of the run are those of [pre], whatever the
    cells [post] are. *)
Theorem unreported_failure_ends_run (pre post : list NotebookCell)
    (cell : NotebookCell) (w : World Session) (err : JsValue)
    (e : JsException) :
  (executeAll' pre w).2 = Ok tt ->
  attempt' cell (session (executeAll' pre w).1) = Throw err ->
  errorItem err = Throw e ->
  let before := (executeAll' pre w).1 in
  executeAll' (pre ++ cell :: post) w
  = ({| session := (evaluation' cell (session before)).2;
        calls := calls w
          ++ concat (map callsOfRecord (executionRecords' pre w))
          ++ [ CreateNotebookCellExecution cell;
               ExecutionStart cell (dateNow (session before)).1 ] |},
     Throw TypeError) /\
  executionRecords' (pre ++ cell :: post) w = executionRecords' pre w.
Proof.
  intros Hpre Hfail Hitem before.
  pose proof (doExecution_catch_throws _ _ _ cell before err e Hfail Hitem)
    as Hcell.
  destruct (executeAll_resolved _ _ _ pre w Hpre) as [_ Hcalls].
  fold before in Hcalls. split.
  - rewrite executeAll_app_resolved by done. fold before.
    rewrite (executeAll_cons_rejected _ _ _ _ _ _ TypeError)
      by (by rewrite Hcell).
    rewrite Hcell, Hcalls. by rewrite <- app_assoc.
  - rewrite executionRecords_app_resolved by done. fold before.
    cbn [executionRecords].
    assert (Hrecord : recordOf' cell before = Throw e).
    { unfold recordOf. fold before in Hfail. rewrite Hfail. cbn [outcome].
      by rewrite Hitem. }
    rewrite Hrecord. by rewrite app_nil_r.
Qed.

End RunMore.

(** * UTF-8: decoding what the encoder wrote *)

Section UTF8Facts.

Local Open Scope N_scope.

Local Ltac nlia := zify; Z.to_euclidean_division_equations; lia.

Local Ltac tests :=
  repeat match goal with
         | |- context [(?a <=? ?b)%N] => destruct (N.leb_spec a b); try lia
         | |- context [(?a <? ?b)%N] => destruct (N.ltb_spec a b); try lia
         | |- context [(?a =? ?b)%N] => destruct (N.eqb_spec a b); try lia
         end.

Lemma decodeFrom_1 (b : N) (rest : list N) :
  b <= 127 ->
  UTF8.decodeFrom UTF8.Initial (b :: rest) = b :: UTF8.decodeFrom UTF8.Initial rest.
Proof.
  intros Hb. cbn [UTF8.decodeFrom]. unfold UTF8.startByte. by tests.
Qed.

Lemma decodeFrom_2 (b1 b2 : N) (rest : list N) :
  194 <= b1 <= 223 -> 128 <= b2 <= 191 ->
  UTF8.decodeFrom UTF8.Initial (b1 :: b2 :: rest)
  = UTF8.utf16 (b1 mod 32 * 64 + b2 mod 64)
    ++ UTF8.decodeFrom UTF8.Initial rest.
Proof.
  intros H1 H2. cbn [UTF8.decodeFrom]. unfold UTF8.startByte. tests.
  cbn [andb app UTF8.decodeFrom Nat.eqb]. by tests.
Qed.

Lemma decodeFrom_3 (b1 b2 b3 : N) (rest : list N) :
  224 <= b1 <= 239 -> 128 <= b2 <= 191 -> 128 <= b3 <= 191 ->
  (b1 = 224 -> 160 <= b2) -> (b1 = 237 -> b2 <= 159) ->
  UTF8.decodeFrom UTF8.Initial (b1 :: b2 :: b3 :: rest)
  = UTF8.utf16 ((b1 mod 16 * 64 + b2 mod 64) * 64 + b3 mod 64)
    ++ UTF8.decodeFrom UTF8.Initial rest.
Proof.
  intros H1 H2 H3 Hlo Hhi. cbn [UTF8.decodeFrom]. unfold UTF8.startByte.
  tests; cbn [andb app UTF8.decodeFrom Nat.eqb]; tests;
    cbn [andb app UTF8.decodeFrom Nat.eqb]; by tests.
Qed.

Lemma decodeFrom_4 (b1 b2 b3 b4 : N) (rest : list N) :
  240 <= b1 <= 244 -> 128 <= b2 <= 191 -> 128 <= b3 <= 191 ->
  128 <= b4 <= 191 ->
  (b1 = 240 -> 144 <= b2) -> (b1 = 244 -> b2 <= 143) ->
  UTF8.decodeFrom UTF8.Initial (b1 :: b2 :: b3 :: b4 :: rest)
  = UTF8.utf16 (((b1 mod 8 * 64 + b2 mod 64) * 64 + b3 mod 64) * 64 + b4 mod 64)
    ++ UTF8.decodeFrom UTF8.Initial rest.
Proof.
  intros H1 H2 H3 H4 Hlo Hhi. cbn [UTF8.decodeFrom]. unfold UTF8.startByte.
  tests; cbn [andb app UTF8.decodeFrom Nat.eqb]; tests;
    cbn [andb app UTF8.decodeFrom Nat.eqb]; tests;
    cbn [andb app UTF8.decodeFrom Nat.eqb]; by tests.
Qed.

(** The decoder reads the bytes of a scalar value back as that value. *)
Lemma decodeFrom_encodeScalar (cp : N) (rest : list N) :
  cp < 1114112 -> (cp < 55296 \/ 57343 < cp) ->
  UTF8.decodeFrom UTF8.Initial (UTF8.encodeScalar cp ++ rest)
  = UTF8.utf16 cp ++ UTF8.decodeFrom UTF8.Initial rest.
Proof.
  intros Hmax Hscalar. unfold UTF8.encodeScalar.
  destruct (N.ltb_spec cp 128); [|destruct (N.ltb_spec cp 2048);
    [|destruct (N.ltb_spec cp 65536)]]; cbn [app].
  - rewrite decodeFrom_1 by lia. unfold UTF8.utf16.
    by destruct (N.ltb_spec cp 65536); [|lia].
  - rewrite decodeFrom_2 by nlia. do 2 f_equal. nlia.
  - rewrite decodeFrom_3 by nlia. do 2 f_equal. nlia.
  - rewrite decodeFrom_4 by nlia. do 2 f_equal. nlia.
Qed.

End UTF8Facts.

Section UTF8RoundTrip.

Local Open Scope N_scope.

Local Ltac nlia := zify; Z.to_euclidean_division_equations; lia.

Lemma surrogate_bounds (c : N) :
  (JSON.isLeadingSurrogate c = true <-> 55296 <= c <= 56319) /\
  (JSON.isTrailingSurrogate c = true <-> 56320 <= c <= 57343).
Proof.
  unfold JSON.isLeadingSurrogate, JSON.isTrailingSurrogate.
  rewrite !andb_true_iff, !N.leb_le. tauto.
Qed.

Lemma utf16_pair (c d : N) :
  55296 <= c <= 56319 -> 56320 <= d <= 57343 ->
  UTF8.utf16 (65536 + (c - 55296) * 1024 + (d - 56320)) = [c; d].
Proof.
  intros Hc Hd. unfold UTF8.utf16.
  destruct (N.ltb_spec (65536 + (c - 55296) * 1024 + (d - 56320)) 65536); [lia|].
  f_equal; [|f_equal]; nlia.
Qed.

Lemma decodeFrom_encode (s : jsstring) :
  UTF8.wellFormed s = true ->
  UTF8.decodeFrom UTF8.Initial (UTF8.encode s) = s.
Proof.
  remember (length s) as n eqn:Hn. revert s Hn.
  induction n as [n IH] using lt_wf_ind. intros s Hn Hwf.
  destruct s as [|c rest]; [done|].
  cbn [UTF8.wellFormed UTF8.encode] in *.
  destruct (JSON.isLeadingSurrogate c) eqn:Hlead.
  - destruct rest as [|d rest']; [done|].
    apply andb_true_iff in Hwf as [Htrail Hwf]. rewrite Htrail.
    apply surrogate_bounds in Hlead, Htrail.
    rewrite decodeFrom_encodeScalar by lia.
    rewrite utf16_pair by done.
    rewrite (IH (length rest')); [done| |done|done].
    subst n. cbn [length]. lia.
  - apply andb_true_iff in Hwf as [Hc Hwf].
    apply andb_true_iff in Hc as [Hc Htrail].
    apply negb_true_iff in Htrail. rewrite Htrail.
    apply N.ltb_lt in Hc.
    assert (Hscalar : c < 55296 \/ 57343 < c).
    { destruct (surrogate_bounds c) as [Hl Ht].
      destruct (N.lt_ge_cases c 55296) as [|Hge]; [by left|right].
      destruct (N.le_gt_cases c 57343) as [Hle|]; [|done].
      destruct (N.le_gt_cases c 56319) as [Hle'|Hgt].
      - rewrite (proj2 Hl) in Hlead by lia. discriminate.
      - rewrite (proj2 Ht) in Htrail by lia. discriminate. }
    rewrite decodeFrom_encodeScalar by (done || lia).
    unfold UTF8.utf16. destruct (N.ltb_spec c 65536); [|lia]. cbn [app].
    rewrite (IH (length rest)); [done| |done|done].
    subst n. cbn [length]. lia.
Qed.

(** Decoding gives back every well-formed text that was encoded, unless
    the text starts with U+FEFF, which the decoder takes for a byte order
    mark and leaves out. *)
Theorem decode_encode_utf8 (s : jsstring) :
  UTF8.wellFormed s = true ->
  UTF8.decode (UTF8.encode s)
  = match s with
    | c :: rest => if c =? UTF8.BOM then rest else s
    | [] => []
    end.
Proof.
  intros Hwf. unfold UTF8.decode. rewrite decodeFrom_encode by done.
  destruct s as [|c rest]; [done|]. by destruct (c =? UTF8.BOM).
Qed.

Lemma decode_encode_plain (s : jsstring) :
  UTF8.wellFormed s = true ->
  startsWith s [UTF8.BOM] = false ->
  UTF8.decode (UTF8.encode s) = s.
Proof.
  intros Hwf Hbom. unfold UTF8.decode. rewrite decodeFrom_encode by done.
  destruct s as [|c rest]; [done|]. cbn [startsWith] in Hbom.
  rewrite andb_true_r, N.eqb_sym in Hbom. by rewrite Hbom.
Qed.

(** A byte order mark before the encoded text is dropped by the decoder,
    and only that one. *)
Lemma decode_bom (s : jsstring) :
  UTF8.wellFormed s = true ->
  UTF8.decode ([239; 187; 191] ++ UTF8.encode s) = s.
Proof.
  intros Hwf. unfold UTF8.decode. cbn [app].
  rewrite decodeFrom_3 by lia. rewrite decodeFrom_encode by done.
  done.
Qed.

End UTF8RoundTrip.

(** * The serializer *)

Section Serializer.

Variable rangesForTopLevelForms : jsstring -> list (Z * Z).

Lemma join_parseClojure (content : jsstring) :
  validSpans content (rangesForTopLevelForms content) = true ->
  separatorsSatisfy wellFormedCommentBlock content true
    (allRanges rangesForTopLevelForms content) = true ->
  writeCellsToClojure (parseClojure rangesForTopLevelForms content) = Ok content.
Proof.
  intros Hvalid Hsep. unfold parseClojure.
  rewrite mappedRanges_cells, allRanges_pairs in *.
  unfold validSpans in Hvalid. unfold topLevelRanges in *.
  rewrite join_cellsFrom; try done.
  - by rewrite last_last, substring_full.
  - rewrite last_last. lia.
Qed.

(** X22.  Load, then save.  For a file that holds the UTF-8 bytes of a
    well-formed text which does not start with U+FEFF, has its forms
    located in order and has only well-formed comment blocks between them,
    saving what was loaded writes the bytes of the file. *)
Theorem load_then_save (content : jsstring) :
  UTF8.wellFormed content = true ->
  startsWith content [UTF8.BOM] = false ->
  validSpans content (rangesForTopLevelForms content) = true ->
  separatorsSatisfy wellFormedCommentBlock content true
    (allRanges rangesForTopLevelForms content) = true ->
  serializeNotebook
    (deserializeNotebook rangesForTopLevelForms (UTF8.encode content))
  = Ok (UTF8.encode content).
Proof.
  intros Hwf Hbom Hvalid Hsep. unfold serializeNotebook, deserializeNotebook.
  cbn [cells]. rewrite decode_encode_plain, join_parseClojure by done. done.
Qed.

(** X23.  A byte order mark is lost.  For a file that starts with the three
    bytes of the mark, followed by such a text, the cells are those of the
    text alone and saving writes the bytes of the text without the mark. *)
Theorem bom_not_written_back (content : jsstring) :
  UTF8.wellFormed content = true ->
  validSpans content (rangesForTopLevelForms content) = true ->
  separatorsSatisfy wellFormedCommentBlock content true
    (allRanges rangesForTopLevelForms content) = true ->
  let file := [239; 187; 191]%N ++ UTF8.encode content in
  cells (deserializeNotebook rangesForTopLevelForms file)
  = parseClojure rangesForTopLevelForms content /\
  serializeNotebook (deserializeNotebook rangesForTopLevelForms file)
  = Ok (UTF8.encode content) /\
  UTF8.encode content <> file.
Proof.
  intros Hwf Hvalid Hsep file. unfold serializeNotebook, deserializeNotebook.
  cbn [cells]. subst file. rewrite decode_bom by done.
  split; [done|]. split; [by rewrite join_parseClojure|].
  intros Heq. apply (f_equal length) in Heq.
  rewrite length_app in Heq. cbn [length] in Heq. lia.
Qed.

End Serializer.

(** * Splitting again what the joiner wrote *)

Section Resplit.

Variable rangesForTopLevelForms : jsstring -> list (Z * Z).
Variable content : jsstring.

Lemma last_decode (b : jsstring) (c : N) :
  c <> SPACE -> last b = Some c ->
  last (replaceAll b (js "\n;; ") (js "\n")) = Some c.
Proof.
  intros Hc. remember (length b) as n eqn:Hn. revert b Hn.
  induction n as [n IH] using lt_wf_ind. intros b Hn Hlast.
  destruct b as [|x b]; [done|].
  destruct (startsWith (x :: b) (js "\n;; ")) eqn:Hstart.
  - apply startsWith_app in Hstart as [rest Hrest]. rewrite Hrest in *.
    rewrite replaceAll_match by done.
    destruct rest as [|y rest]; [by injection Hlast as <-|].
    change (js "\n;; " ++ y :: rest)
      with ([LF; 59%N; 59%N; SPACE] ++ y :: rest) in Hlast.
    rewrite last_app in Hlast. cbn [last] in Hlast.
    change (js "\n" ++ ?z) with (LF :: z). rewrite last_cons.
    rewrite (IH (length (y :: rest))); [done| |done|].
    + subst n. rewrite length_app. change (length (js "\n;; ")) with 4%nat. lia.
    + revert Hlast. destruct (last (y :: rest)); [done|]. by intros [= <-].
  - rewrite replaceAll_nomatch by done.
    destruct b as [|y b]; [done|].
    rewrite last_cons in Hlast |- *.
    rewrite (IH (length (y :: b))); [done| |done|].
    + subst n. cbn [length]. lia.
    + revert Hlast. destruct (last (y :: b)) eqn:Hl; [done|].
      by apply last_None in Hl.
Qed.

Lemma commentCell_resplit (a b : Z) :
  a <> b ->
  isCommentBlock (substring content a b) = true ->
  let c := cellOfRange content (a, b) 0 in
  exists t, textOfCell c = Ok t /\ cellOfRange t (0, jslength t) 0 = c.
Proof.
  intros Hab Hblock c. subst c. rewrite commentCell by done.
  apply startsWith_app in Hblock as [rest Hrest]. rewrite Hrest.
  change (js "\n\n;; " ++ rest) with (LF :: (js "\n;; " ++ rest)).
  rewrite substring_from_cons.
  set (block := js "\n;; " ++ rest).
  assert (Hne : trimEnd block <> []).
  { subst block. by rewrite trimEnd_commentBlock. }
  destruct (last (trimEnd block)) as [d|] eqn:Hlast;
    [|by apply last_None in Hlast].
  pose proof (trimEnd_last _ _ Hlast) as Hd.
  destruct (commentValue_head rest) as [tail Htail].
  change (js "\n\n;; " ++ rest) with (LF :: block) in Htail.
  rewrite substring_from_cons in Htail.
  destruct (commentDerivedCell_resplit
              (replaceAll (trimEnd block) (js "\n;; ") (js "\n"))
              (jslength (trailingWhiteSpace (LF :: block))) d)
    as (t & Ht & _ & Hcell).
  - unfold jslength. lia.
  - rewrite Htail. done.
  - apply last_decode; [|done]. by intros ->.
  - done.
  - exists t. done.
Qed.

(** X15.  Every comment-derived cell the splitter returns is stable: the text
    the joiner writes for it is split into that very cell again. *)
Theorem comment_cells_stable :
  Forall (fun c => forall m, metadata c = Some m ->
                   exists t, textOfCell c = Ok t /\
                             cellOfRange t (0, jslength t) 0 = c)
    (parseClojure rangesForTopLevelForms content).
Proof.
  unfold parseClojure. rewrite mappedRanges_cells.
  generalize (allRanges rangesForTopLevelForms content) as l, true as isSep.
  induction l as [|[a b] l IH]; intros isSep; cbn [cellsFrom List.filter];
    [constructor|].
  destruct (hasValue _); [|apply IH]. constructor; [|apply IH].
  destruct isSep; [|by rewrite codeCell].
  destruct (Z.eqb_spec a b) as [->|Hab]; [by rewrite emptySeparatorCell|].
  destruct (isCommentBlock (substring content a b)) eqn:Hblock;
    [|by rewrite plainCell].
  intros m _. by apply commentCell_resplit.
Qed.

(** X5.  A text with [n] forms gives at most [2n + 1] cells. *)
Theorem cell_count_bound :
  (length (parseClojure rangesForTopLevelForms content)
   <= 2 * length (rangesForTopLevelForms content) + 1)%nat.
Proof.
  unfold parseClojure.
  etransitivity; [apply filter_length_le|].
  unfold mappedRanges. rewrite length_imap, allRanges_pairs, length_pairsFrom.
  unfold topLevelRanges. rewrite length_app, length_flat. cbn [length]. lia.
Qed.

End Resplit.

(** * What a round trip can change *)

Section Lossy.

Variable rangesForTopLevelForms : jsstring -> list (Z * Z).
Variable content : jsstring.




(** X12.  What is lost of a comment block whose lines all carry the marker is
    the kind of its trailing white space only: the joiner writes the block
    up to its last character that is no white space, and then one line feed
    for every code unit of white space that followed. *)
Theorem trailing_whitespace_becomes_line_feeds (a b : Z) :
  let region := substring content a b in
  a <> b ->
  isCommentBlock region = true ->
  linesPrefixed (trimEnd (substring_from region 1)) = true ->
  textOfCell (cellOfRange content (a, b) 0)
  = Ok (trimEnd region
        ++ replicate (length (trailingWhiteSpace region)) LF).
Proof.
  intros region Hab Hblock Hlines. subst region.
  rewrite commentCell_written, commentCell by done. cbn [value].
  apply startsWith_app in Hblock as [rest Hrest]. rewrite Hrest in *.
  change (js "\n\n;; " ++ rest) with (LF :: (js "\n;; " ++ rest)) in *.
  rewrite substring_from_cons in *.
  rewrite encode_decode by done.
  rewrite trimEnd_cons by (by rewrite trimEnd_commentBlock). done.
Qed.

End Lossy.

Lemma trailing_whitespace_witness :
  let region := substring trailingSpaceText 0 9 in
  0 <> 9 /\
  isCommentBlock region = true /\
  linesPrefixed (trimEnd (substring_from region 1)) = true /\
  textOfCell (cellOfRange trailingSpaceText (0, 9) 0)
  = Ok (js "\n\n;; hi\n\n").
Proof.
  intros region. split; [lia|]. split; [vm_compute; reflexivity|].
  split; [vm_compute; reflexivity|].
  exact (trailing_whitespace_becomes_line_feeds trailingSpaceText 0 9
           ltac:(lia) eq_refl eq_refl).
Defined.

(** * Two characterisations *)


(** X11.  The joiner writes a comment block back as it was exactly when the
    block is well formed: [trimEnd] removes line feeds only from it, and
    every line feed that remains is followed by the marker and a space. *)
Theorem comment_block_rebuilt_iff (content : jsstring) (a b : Z) :
  a <> b ->
  isCommentBlock (substring content a b) = true ->
  textOfCell (cellOfRange content (a, b) 0) = Ok (substring content a b)
  <-> wellFormedCommentBlock (substring content a b) = true.
Proof. apply commentCell_text_iff. Qed.

(** * The further properties on the examples *)

Lemma ranges_partition_witness :
  validSpans scenarioText (scenarioForms scenarioText) = true /\
  concat (map (regionOf scenarioText) (allRanges scenarioForms scenarioText))
  = scenarioText.
Proof.
  split; [vm_compute; reflexivity|].
  apply (ranges_partition scenarioForms scenarioText). vm_compute; reflexivity.
Defined.

Lemma join_then_split_cell_witness :
  0 <= 2 /\
  startsWith (js "\nhello\nworld") (js "\n") = true /\
  last (js "\nhello\nworld") = Some 100%N /\
  isWhiteSpace 100 = false /\
  exists t,
    textOfCell (commentDerivedCell (js "\nhello\nworld") 2) = Ok t /\
    isCommentBlock t = true /\
    cellOfRange t (0, jslength t) 0 = commentDerivedCell (js "\nhello\nworld") 2.
Proof.
  split; [lia|]. split; [reflexivity|]. split; [reflexivity|].
  split; [reflexivity|].
  apply (join_then_split_cell (js "\nhello\nworld") 2 100%N);
    [lia | reflexivity | reflexivity | reflexivity].
Defined.

Lemma comment_block_rebuilt_iff_witness :
  7 <> 28 /\
  isCommentBlock (substring scenarioText 7 28) = true /\
  (textOfCell (cellOfRange scenarioText (7, 28) 0)
   = Ok (substring scenarioText 7 28)
   <-> wellFormedCommentBlock (substring scenarioText 7 28) = true).
Proof.
  split; [lia|]. split; [vm_compute; reflexivity|].
  apply (comment_block_rebuilt_iff scenarioText 7 28);
    [lia | vm_compute; reflexivity].
Defined.

Lemma roundtrip_with_metadata_witness :
  validSpans twoForms (twoFormsSpans twoForms) = true /\
  separatorsSatisfy plainOrWellFormed twoForms true
    (allRanges twoFormsSpans twoForms) = true /\
  writeCellsToClojure (map withMetadata (parseClojure twoFormsSpans twoForms))
  = Ok twoForms.
Proof.
  split; [vm_compute; reflexivity|]. split; [vm_compute; reflexivity|].
  apply (roundtrip_with_metadata twoFormsSpans twoForms); vm_compute; reflexivity.
Defined.

Lemma decode_encode_utf8_witness :
  UTF8.wellFormed [233; 8364; 55357; 56832]%N = true /\
  UTF8.decode (UTF8.encode [233; 8364; 55357; 56832]%N)
  = [233; 8364; 55357; 56832]%N.
Proof.
  split; [reflexivity|].
  exact (decode_encode_utf8 [233; 8364; 55357; 56832]%N eq_refl).
Defined.

Lemma load_then_save_witness :
  UTF8.wellFormed scenarioText = true /\
  startsWith scenarioText [UTF8.BOM] = false /\
  validSpans scenarioText (scenarioForms scenarioText) = true /\
  separatorsSatisfy wellFormedCommentBlock scenarioText true
    (allRanges scenarioForms scenarioText) = true /\
  serializeNotebook (deserializeNotebook scenarioForms (UTF8.encode scenarioText))
  = Ok (UTF8.encode scenarioText).
Proof.
  split; [vm_compute; reflexivity|]. split; [vm_compute; reflexivity|].
  split; [vm_compute; reflexivity|]. split; [vm_compute; reflexivity|].
  apply (load_then_save scenarioForms scenarioText); vm_compute; reflexivity.
Defined.

Lemma bom_not_written_back_witness :
  UTF8.wellFormed scenarioText = true /\
  validSpans scenarioText (scenarioForms scenarioText) = true /\
  separatorsSatisfy wellFormedCommentBlock scenarioText true
    (allRanges scenarioForms scenarioText) = true /\
  serializeNotebook
    (deserializeNotebook scenarioForms
       ([239; 187; 191]%N ++ UTF8.encode scenarioText))
  = Ok (UTF8.encode scenarioText).
Proof.
  split; [vm_compute; reflexivity|]. split; [vm_compute; reflexivity|].
  split; [vm_compute; reflexivity|].
  exact (proj1 (proj2 (bom_not_written_back scenarioForms scenarioText
                         eq_refl eq_refl eq_refl))).
Defined.

(** * The joiner under the limit on the length of a string *)

Section StringLimitFacts.

Variable maxStringLength : Z.

Local Abbreviation checkLength' := (checkLength maxStringLength).
Local Abbreviation repeatLFWithin' := (repeatLFWithin maxStringLength).
Local Abbreviation textOfCellWithin' := (textOfCellWithin maxStringLength).
Local Abbreviation writeCellsToClojureWithin' :=
  (writeCellsToClojureWithin maxStringLength).

Lemma Ok_inj {E A} (a b : A) : @Ok E A a = Ok b -> a = b.
Proof. congruence. Qed.

Lemma jslength_app (s t : jsstring) : jslength (s ++ t) = jslength s + jslength t.
Proof. unfold jslength. rewrite length_app. lia. Qed.

Lemma jslength_replicate (n : Z) : 0 <= n -> jslength (replicate (Z.to_nat n) LF) = n.
Proof. intros H. unfold jslength. rewrite length_replicate. lia. Qed.

Lemma jslength_nonneg (s : jsstring) : 0 <= jslength s.
Proof. unfold jslength. lia. Qed.

(** The text of a comment-derived cell with the limit: the five string
    operations throw or return together. *)
Lemma commentTextWithin (sw ew : Z) (v : jsstring) :
  (lead ← repeatLFWithin' sw;
   body ← checkLength' v;
   front ← checkLength' (lead ++ body);
   trail ← repeatLFWithin' ew;
   checkLength' (front ++ trail))
  = if (sw <? 0) || (ew <? 0) || (maxStringLength <? sw + jslength v + ew)
    then Throw RangeError
    else Ok (replicate (Z.to_nat sw) LF ++ v ++ replicate (Z.to_nat ew) LF).
Proof.
  pose proof (jslength_nonneg v) as Hv.
  unfold repeatLFWithin, checkLength.
  destruct (Z.ltb_spec sw 0) as [Hs|Hs]; [done|].
  destruct (Z.ltb_spec maxStringLength sw) as [Hs'|Hs'];
    cbn [orb mbind Completion_bind bindR].
  { destruct (ew <? 0) eqn:He; [done|]. apply Z.ltb_ge in He.
    destruct (Z.ltb_spec maxStringLength (sw + jslength v + ew)); [done|lia]. }
  destruct (Z.ltb_spec maxStringLength (jslength v)) as [Hb|Hb];
    cbn [mbind Completion_bind bindR].
  { destruct (ew <? 0) eqn:He; [done|]. apply Z.ltb_ge in He.
    destruct (Z.ltb_spec maxStringLength (sw + jslength v + ew)); [done|lia]. }
  rewrite jslength_app, jslength_replicate by done.
  destruct (Z.ltb_spec maxStringLength (sw + jslength v)) as [Hf|Hf];
    cbn [mbind Completion_bind bindR].
  { destruct (ew <? 0) eqn:He; [done|]. apply Z.ltb_ge in He.
    destruct (Z.ltb_spec maxStringLength (sw + jslength v + ew)); [done|lia]. }
  destruct (Z.ltb_spec ew 0) as [He|He]; cbn [orb mbind Completion_bind bindR];
    [done|].
  destruct (Z.ltb_spec maxStringLength ew) as [He'|He'];
    cbn [orb mbind Completion_bind bindR].
  { destruct (Z.ltb_spec maxStringLength (sw + jslength v + ew)); [done|lia]. }
  rewrite !jslength_app, !jslength_replicate by done.
  destruct (Z.ltb_spec maxStringLength (sw + jslength v + ew)); [done|].
  by rewrite <- app_assoc.
Qed.

(** The same text without the limit. *)
Lemma commentText (sw ew : Z) (v : jsstring) :
  (lead ← repeatLF sw; trail ← repeatLF ew; Ok (lead ++ v ++ trail))
  = if (sw <? 0) || (ew <? 0)
    then @Throw JsException jsstring RangeError
    else Ok (replicate (Z.to_nat sw) LF ++ v ++ replicate (Z.to_nat ew) LF).
Proof.
  unfold repeatLF. destruct (sw <? 0); [done|].
  cbn [orb mbind Completion_bind bindR]. by destruct (ew <? 0).
Qed.

Lemma jslength_commentText (sw ew : Z) (v : jsstring) :
  0 <= sw -> 0 <= ew ->
  jslength (replicate (Z.to_nat sw) LF ++ v ++ replicate (Z.to_nat ew) LF)
  = sw + jslength v + ew.
Proof.
  intros Hs He. rewrite !jslength_app, !jslength_replicate by done. lia.
Qed.

(** With the limit the callback returns what it returns without, when
    that is not too long. *)
Lemma textOfCellWithin_Ok (x : NotebookCellData) (t : jsstring) :
  textOfCellWithin' x = Ok t <->
  textOfCell x = Ok t /\
  (kind x = Markup ->
   forall m, metadata x = Some m -> asMarkdown m = true ->
   jslength t <= maxStringLength).
Proof.
  unfold textOfCellWithin, textOfCell.
  destruct (kind x) eqn:Hk; [|by split; [intros ->|intros [-> _]]].
  destruct (metadata x) as [m|] eqn:Hm; [|by split; [|intros [? _]]].
  destruct (asMarkdown m) eqn:Hmd.
  2: { split; [intros ->; split; [done|]|by intros [-> _]].
       intros _ m' [= <-]. congruence. }
  rewrite commentTextWithin, commentText.
  destruct (Z.ltb_spec (startingWhitespace m) 0) as [Hs|Hs];
    [by split; [|intros [? _]]|].
  destruct (Z.ltb_spec (endingWhitespace m) 0) as [He|He];
    [by split; [|intros [? _]]|].
  cbn [orb].
  destruct (Z.ltb_spec maxStringLength
              (startingWhitespace m
               + jslength (replaceAll (value x) (js "\n") (js "\n;; "))
               + endingWhitespace m)) as [Hl|Hl].
  - split; [done|]. intros [Heq%Ok_inj Hlen]. subst t.
    specialize (Hlen eq_refl m eq_refl Hmd).
    rewrite jslength_commentText in Hlen by done. lia.
  - split; [intros Heq%Ok_inj; subst t|by intros [-> _]]. split; [done|].
    intros _ m' _ _. rewrite jslength_commentText by done. lia.
Qed.

Lemma textOfCellWithin_throws (x : NotebookCellData) :
  (textOfCellWithin' x = Throw TypeError <->
   kind x = Markup /\ metadata x = None) /\
  (textOfCellWithin' x = Throw RangeError <->
   kind x = Markup /\
   exists m, metadata x = Some m /\ asMarkdown m = true /\
     (startingWhitespace m < 0 \/ endingWhitespace m < 0 \/
      maxStringLength
      < startingWhitespace m
        + jslength (replaceAll (value x) (js "\n") (js "\n;; "))
        + endingWhitespace m)).
Proof.
  unfold textOfCellWithin.
  destruct (kind x) eqn:Hk.
  2: { split; (split; [done|by intros [? _]]). }
  destruct (metadata x) as [m|] eqn:Hm.
  2: { split; [done|]. split; [done|]. by intros (_ & m & ? & _). }
  destruct (asMarkdown m) eqn:Hmd.
  2: { split; [split; [done|by intros [_ ?]]|]. split; [done|].
       intros (_ & m' & [= <-] & ? & _). congruence. }
  rewrite commentTextWithin.
  destruct (Z.ltb_spec (startingWhitespace m) 0) as [Hs|Hs].
  { cbn [orb]. split; [split; [done|by intros [_ ?]]|]. split; [|done].
    intros _. split; [done|]. exists m. auto. }
  destruct (Z.ltb_spec (endingWhitespace m) 0) as [He|He].
  { cbn [orb]. split; [split; [done|by intros [_ ?]]|]. split; [|done].
    intros _. split; [done|]. exists m. auto. }
  cbn [orb].
  destruct (Z.ltb_spec maxStringLength
              (startingWhitespace m
               + jslength (replaceAll (value x) (js "\n") (js "\n;; "))
               + endingWhitespace m)) as [Hl|Hl].
  - split; [split; [done|by intros [_ ?]]|]. split; [|done].
    intros _. split; [done|]. exists m. auto.
  - split; [split; [done|by intros [_ ?]]|]. split; [done|].
    intros (_ & m' & [= <-] & _ & [?|[?|?]]); lia.
Qed.

(** X6.  Where the joiner fails on a cell, with the limit of the engine on
    the length of a string: with a [TypeError] exactly on a Markup cell
    without [metadata]; with a [RangeError] exactly on a Markup cell whose
    [asMarkdown] is set and one of whose counts is negative or whose text
    would be longer than the limit; and it returns in every other case,
    with the text the callback gives when the limit is left aside. *)
Theorem textOfCell_errors (x : NotebookCellData) :
  (textOfCellWithin' x = Throw TypeError <->
   kind x = Markup /\ metadata x = None) /\
  (textOfCellWithin' x = Throw RangeError <->
   kind x = Markup /\
   exists m, metadata x = Some m /\ asMarkdown m = true /\
     (startingWhitespace m < 0 \/ endingWhitespace m < 0 \/
      maxStringLength
      < startingWhitespace m
        + jslength (replaceAll (value x) (js "\n") (js "\n;; "))
        + endingWhitespace m)) /\
  (forall t,
   textOfCellWithin' x = Ok t <->
   textOfCell x = Ok t /\
   (kind x = Markup ->
    forall m, metadata x = Some m -> asMarkdown m = true ->
    jslength t <= maxStringLength)).
Proof.
  destruct (textOfCellWithin_throws x) as [Htype Hrange].
  split; [done|]. split; [done|]. apply textOfCellWithin_Ok.
Qed.

Lemma mapR_Ok {E A B} (f : A -> Completion E B) (l : list A) (parts : list B) :
  mapR f l = Ok parts <-> Forall2 (fun x p => f x = Ok p) l parts.
Proof.
  revert parts. induction l as [|x l IH]; intros parts; cbn [mapR].
  - split; [intros [= <-]; constructor|by inversion 1].
  - destruct (f x) as [p|e] eqn:Hx; cbn [mbind Completion_bind bindR].
    + destruct (mapR f l) as [ps|e] eqn:Hl; cbn [mbind Completion_bind bindR].
      * split.
        -- intros [= <-]. constructor; [done|]. by apply IH.
        -- inversion 1 as [|? p' ? ps' Hp Hps]; subst.
           apply IH in Hps. congruence.
      * split; [done|]. inversion 1 as [|? p' ? ps' Hp Hps]; subst.
        by apply IH in Hps.
    + split; [done|]. inversion 1; congruence.
Qed.

Lemma jslength_concat_bound (parts : list jsstring) (p : jsstring) :
  In p parts -> jslength p <= jslength (concat parts).
Proof.
  induction parts as [|q parts IH]; [done|]. cbn [concat In].
  rewrite jslength_app. pose proof (jslength_nonneg q).
  pose proof (jslength_nonneg (concat parts)).
  intros [->|Hin]; [lia|]. specialize (IH Hin). lia.
Qed.

(** X26.  The joiner with the limit of the engine on the length of a string
    returns a text exactly when the joiner returns that text with the limit
    left aside and the text is within the limit. *)
Theorem joiner_within_limit (cells : list NotebookCellData) (t : jsstring) :
  writeCellsToClojureWithin' cells = Ok t <->
  writeCellsToClojure cells = Ok t /\ jslength t <= maxStringLength.
Proof.
  unfold writeCellsToClojureWithin, writeCellsToClojure. split.
  - destruct (mapR textOfCellWithin' cells) as [parts|e] eqn:Hparts; [|done].
    cbn [mbind Completion_bind bindR]. unfold checkLength.
    destruct (Z.ltb_spec maxStringLength (jslength (concat parts))); [done|].
    intros [= <-]. split; [|done].
    assert (Hmap : mapR textOfCell cells = Ok parts).
    { apply mapR_Ok. apply mapR_Ok in Hparts.
      eapply Forall2_impl; [exact Hparts|].
      intros x p Hx. by apply textOfCellWithin_Ok in Hx as [? _]. }
    by rewrite Hmap.
  - destruct (mapR textOfCell cells) as [parts|e] eqn:Hparts; [|by intros [? _]].
    cbn [mbind Completion_bind bindR]. intros [[= <-] Hlen].
    assert (Hmap : mapR textOfCellWithin' cells = Ok parts).
    { apply mapR_Ok. apply mapR_Ok in Hparts.
      assert (Hbound : Forall (fun p => jslength p <= maxStringLength) parts).
      { apply List.Forall_forall. intros p Hin.
        pose proof (jslength_concat_bound parts p Hin). lia. }
      clear Hlen. induction Hparts as [|x p l ps Hx _ IH]; [constructor|].
      inversion Hbound; subst. constructor; [|by apply IH].
      apply textOfCellWithin_Ok. split; [done|]. by intros. }
    rewrite Hmap. cbn [mbind Completion_bind bindR]. unfold checkLength.
    destruct (Z.ltb_spec maxStringLength (jslength (concat parts))); [lia|done].
Qed.

End StringLimitFacts.

(** * The further properties of a run on the examples *)

Lemma pretty_failure_witness :
  let failing := demoCell 0 "(throw)" in
  let fine := demoCell 0 "(+ 1 2)" in
  let item := ErrorItem (js "error") (Some (DQUOTE :: js "boom" ++ [DQUOTE])) in
  (evaluation demoDateNow demoEvaluate failing (session demoWorld)).1
  = Throw (JsText (js "boom")) /\
  (evaluation demoDateNow demoEvaluate fine (session demoWorld)).1
  = Ok (js "3") /\
  demoPrettyThrows (js "3") = Throw (JsText (js "boom")) /\
  calls (doExecution demoDateNow demoEvaluate demoPrettyThrows failing demoWorld).1
  = [ CreateNotebookCellExecution failing; ExecutionStart failing 1000;
      ReplaceOutput failing [[item]]; ExecutionEnd failing false 1005 ] /\
  calls (doExecution demoDateNow demoEvaluate demoPrettyThrows fine demoWorld).1
  = [ CreateNotebookCellExecution fine; ExecutionStart fine 1000;
      ReplaceOutput fine [[item]]; ExecutionEnd fine false 1005 ].
Proof.
  intros failing fine item. split; [reflexivity|]. split; [reflexivity|].
  split; [reflexivity|].
  destruct (pretty_failure_like_evaluation_failure demoDateNow demoEvaluate
              demoPrettyThrows failing fine demoWorld demoWorld (js "3")
              (JsText (js "boom")) eq_refl eq_refl eq_refl)
    as [H1 H2].
  split; [exact (f_equal (fun r => calls r.1) H1)
         |exact (f_equal (fun r => calls r.1) H2)].
Defined.

Lemma reported_failure_witness :
  let run := executeAll demoDateNow demoEvaluate demoPretty in
  let pre := [demoCell 0 "(+ 1 2)"] in
  let cell := demoCell 1 "(throw)" in
  let post := [demoCell 2 "(+ 3 4)"; demoCell 3 "(error)"; demoCell 4 "(+ 5 6)"] in
  let after :=
    (doExecution demoDateNow demoEvaluate demoPretty cell (run pre demoWorld).1).1 in
  (run pre demoWorld).2 = Ok tt /\
  attempt demoDateNow demoEvaluate demoPretty cell (session (run pre demoWorld).1)
  = Throw (JsText (js "boom")) /\
  errorItem (JsText (js "boom"))
  = Ok (ErrorItem (js "error") (Some (DQUOTE :: js "boom" ++ [DQUOTE]))) /\
  run (pre ++ cell :: post) demoWorld = run post after /\
  map succeeded
    (executionRecords demoDateNow demoEvaluate demoPretty (pre ++ cell :: post)
       demoWorld)
  = [true; false; true; false; true].
Proof.
  intros run pre cell post after.
  split; [reflexivity|]. split; [reflexivity|]. split; [reflexivity|].
  destruct (reported_failure_run_goes_on demoDateNow demoEvaluate demoPretty
              pre post cell demoWorld (JsText (js "boom"))
              (ErrorItem (js "error") (Some (DQUOTE :: js "boom" ++ [DQUOTE])))
              eq_refl eq_refl eq_refl)
    as (_ & Hrun & _ & _).
  split; [exact Hrun|reflexivity].
Defined.

Lemma unreported_failure_witness :
  let pre := [demoCell 0 "(+ 1 2)"] in
  let cell := demoCell 1 "(bigint)" in
  let post := [demoCell 2 "(+ 3 4)"] in
  (executeAll demoDateNow demoEvaluate demoPretty pre demoWorld).2 = Ok tt /\
  attempt demoDateNow demoEvaluate demoPretty cell
    (session (executeAll demoDateNow demoEvaluate demoPretty pre demoWorld).1)
  = Throw (JsBigInt 1) /\
  errorItem (JsBigInt 1) = Throw TypeError /\
  (executeAll demoDateNow demoEvaluate demoPretty (pre ++ cell :: post) demoWorld).2
  = Throw TypeError /\
  map recordCell
    (executionRecords demoDateNow demoEvaluate demoPretty (pre ++ cell :: post)
       demoWorld)
  = pre.
Proof.
  intros pre cell post.
  split; [reflexivity|]. split; [reflexivity|]. split; [reflexivity|].
  destruct (unreported_failure_ends_run demoDateNow demoEvaluate demoPretty
              pre post cell demoWorld (JsBigInt 1) TypeError
              eq_refl eq_refl eq_refl)
    as [Hrun Hrecords].
  split; [exact (f_equal snd Hrun)|].
  exact (f_equal (map recordCell) Hrecords).
Defined.

(** A comment-derived cell with 2^29 line feeds to write before its
    content, on an engine whose strings hold 2^29 - 24 code units at most. *)
Lemma textOfCell_errors_witness :
  textOfCellWithin 536870888
    {| value := js "hi"; kind := Markup; languageId := js "markdown";
       metadata := Some {| asMarkdown := true; startingWhitespace := 536870912;
                           endingWhitespace := 0 |} |}
  = Throw RangeError.
Proof.
  apply (proj1 (proj2 (textOfCell_errors 536870888 _))).
  split; [reflexivity|]. eexists. split; [reflexivity|]. split; [reflexivity|].
  right. right. apply Z.ltb_lt. reflexivity.
Defined.

Lemma joiner_within_limit_witness :
  writeCellsToClojureWithin 536870888 (map withMetadata (parseClojure twoFormsSpans twoForms))
  = Ok twoForms.
Proof.
  apply (proj2 (joiner_within_limit 536870888 _ _)).
  split; [reflexivity|]. apply Z.leb_le. reflexivity.
Defined.
